(** * HaterAide front end: moderation resolution and the push channel

    A shallow embedding of the moderation logic of the React front end:

    - [services/websocket.ts]: the [WebSocketService] class (connection,
      reconnect timer, listener registry, dispatch);
    - [App.tsx]: the [HaterAideAnalysis] view (the Live and Preloaded
      maps, [getReplyModerationInfo], [shouldModerateContent]);
    - [components/Reply.tsx]: the [Reply] component (its subscription and
      the render decision).

    Values that cross the network (push messages, moderation actions) are
    kept as untyped JavaScript values, since the TypeScript annotations on
    them are unchecked casts; the analysis payload is given the record
    shape the code reads it with. *)

From stdpp Require Import base strings list gmap.
From Stdlib Require Import ZArith Lia.

Open Scope string_scope.
Open Scope list_scope.
Set Warnings "-register-all".

(* ===================================================================== *)
(** ** JavaScript values *)
(* ===================================================================== *)

Module JS.

(** The values [JSON.parse] builds, plus [undefined] (what a missing
    property reads as). Numbers are kept as integers: the program never
    computes with them, only their truthiness can matter. An object is
    the list of its own properties, read first match first. *)
Inductive jsval : Type :=
| VUndefined
| VNull
| VBool (b : bool)
| VNum (n : Z)
| VStr (s : string)
| VArr (elems : list jsval)
| VObj (fields : list (string * jsval)).

(** A JavaScript completion: a value, or a thrown exception. *)
Inductive completion (A : Type) : Type :=
| Normal (a : A)
| Throw.
Arguments Normal {A} a.
Arguments Throw {A}.

(** ToBoolean. *)
Definition truthy (v : jsval) : bool :=
  match v with
  | VUndefined | VNull => false
  | VBool b => b
  | VNum n => negb (n =? 0)%Z
  | VStr s => negb (String.eqb s "")
  | VArr _ | VObj _ => true
  end.

(** [a || b] *)
Definition js_or (a b : jsval) : jsval := if truthy a then a else b.

(** [v === 'lit'] for a string literal (or a string variable). *)
Definition strict_eq_str (v : jsval) (s : string) : bool :=
  match v with
  | VStr s' => String.eqb s' s
  | _ => false
  end.

Fixpoint obj_get (fields : list (string * jsval)) (p : string) : jsval :=
  match fields with
  | [] => VUndefined
  | (k, v) :: rest => if String.eqb k p then v else obj_get rest p
  end.

Fixpoint obj_has (fields : list (string * jsval)) (p : string) : bool :=
  match fields with
  | [] => false
  | (k, _) :: rest => if String.eqb k p then true else obj_has rest p
  end.

(** [v.p] on a value that is neither [null] nor [undefined], for the
    property names this program reads: own data properties of objects,
    and [length]. *)
Definition get_own (v : jsval) (p : string) : jsval :=
  match v with
  | VObj fields => obj_get fields p
  | VArr elems => if String.eqb p "length" then VNum (Z.of_nat (length elems)) else VUndefined
  | VStr s => if String.eqb p "length" then VNum (Z.of_nat (String.length s)) else VUndefined
  | _ => VUndefined
  end.

(** [v.p]: a TypeError on [null] and [undefined]. *)
Definition get_prop (v : jsval) (p : string) : completion jsval :=
  match v with
  | VUndefined | VNull => Throw
  | _ => Normal (get_own v p)
  end.

(** [v?.p] *)
Definition opt_get (v : jsval) (p : string) : jsval :=
  match v with
  | VUndefined | VNull => VUndefined
  | _ => get_own v p
  end.

(** ['p' in v]: a TypeError unless [v] is an object. *)
Definition has_prop (p : string) (v : jsval) : completion bool :=
  match v with
  | VObj fields => Normal (obj_has fields p)
  | VArr _ => Normal (String.eqb p "length")
  | _ => Throw
  end.

End JS.
Import JS.

(* ===================================================================== *)
(** ** types/index.ts *)
(* ===================================================================== *)

Inductive ReplyKind := KText | KImage | KGif.

Record Author := {
  author_name : string;
  avatar : string;
  verified : option bool;
}.

Record Reply := {
  id : string;
  type : ReplyKind;
  content : string;
  media_url : option string;
  author : Author;
  language : string;
  hidden : bool;
}.

(* ===================================================================== *)
(** ** The moderation action of services/websocket.ts *)
(* ===================================================================== *)

Inductive ActionType := blur | hide.
Inductive FlaggedSentiment := harmful | unfriendly.

Record ModerationAction := {
  reply_id : string;
  action_type : ActionType;
  reason : string;
  sentiment : FlaggedSentiment;
  timestamp : string;
  status : string;
}.

Definition action_type_str (t : ActionType) : string :=
  match t with blur => "blur" | hide => "hide" end.

Definition sentiment_str (s : FlaggedSentiment) : string :=
  match s with harmful => "harmful" | unfriendly => "unfriendly" end.

(** The object a well-typed [ModerationAction] is at run time. *)
Definition js_of_action (a : ModerationAction) : jsval :=
  VObj [ ("reply_id", VStr (reply_id a));
         ("action_type", VStr (action_type_str (action_type a)));
         ("reason", VStr (reason a));
         ("sentiment", VStr (sentiment_str (sentiment a)));
         ("timestamp", VStr (timestamp a));
         ("status", VStr (status a)) ].

(** [v] reads as a [ModerationAction]: its six properties hold values
    of the declared types (in any order, next to any other property). *)
Definition is_action (v : jsval) : Prop :=
  ∃ a : ModerationAction,
    get_own v "reply_id" = VStr (reply_id a)
    ∧ get_own v "action_type" = VStr (action_type_str (action_type a))
    ∧ get_own v "reason" = VStr (reason a)
    ∧ get_own v "sentiment" = VStr (sentiment_str (sentiment a))
    ∧ get_own v "timestamp" = VStr (timestamp a)
    ∧ get_own v "status" = VStr (status a).

(** The object a well-typed [ModerationUpdate] is at run time. *)
Definition js_of_update (a : ModerationAction) : jsval :=
  VObj [ ("type", VStr "content_moderation"); ("action", js_of_action a) ].

(* ===================================================================== *)
(** ** The batch analysis payload *)
(* ===================================================================== *)

(** [reply_analyzer_results.reply_analyses[]], each entry with [reply_id]
    and an optional [analysis_result] holding [sentiment],
    [author_important] and [moderation_actions]. The payload is [any] in
    the source; a field the code guards with [?.] or [||] is an option. *)
Record AnalysisResult := {
  ar_sentiment : option string;
  ar_author_important : option bool;
  ar_moderation_actions : option (list jsval);
}.

Record ReplyAnalysis := {
  ra_reply_id : string;
  ra_analysis_result : option AnalysisResult;
}.

Record ReplyAnalyzerResults := {
  reply_analyses : option (list ReplyAnalysis);
}.

Record AnalysisData := {
  reply_analyzer_results : option ReplyAnalyzerResults;
}.

(** [analysis.analysis_result?.sentiment] *)
Definition entry_sentiment (analysis : ReplyAnalysis) : option string :=
  match ra_analysis_result analysis with
  | Some r => ar_sentiment r
  | None => None
  end.

(** [data?.reply_analyzer_results?.reply_analyses] *)
Definition data_analyses (data : option AnalysisData) : option (list ReplyAnalysis) :=
  match data with
  | Some d =>
      match reply_analyzer_results d with
      | Some r => reply_analyses r
      | None => None
      end
  | None => None
  end.

(** [analyses.find(analysis => analysis.reply_id === replyId)] *)
Definition find_analysis (analyses : list ReplyAnalysis) (replyId : string)
  : option ReplyAnalysis :=
  List.find (fun analysis => String.eqb (ra_reply_id analysis) replyId) analyses.

(* ===================================================================== *)
(** ** App.tsx: the HaterAideAnalysis view *)
(* ===================================================================== *)

Module App.

(** The state and props of the view that moderation reads.
    [moderationActions] is the Live map, [preloadedModerations] the
    Preloaded one; [replyAnalysisData] is the fetched batch payload and
    [replyAnalysisResults] the prop handed down by the parent. A map is
    only ever read with a string key, so string keys are all it holds. *)
Record State := {
  moderationActions : gmap string jsval;
  preloadedModerations : gmap string jsval;
  replyAnalysisData : option AnalysisData;
  replyAnalysisResults : option ReplyAnalyzerResults;
}.

Definition initial (results : option ReplyAnalyzerResults) : State :=
  {| moderationActions := ∅;
     preloadedModerations := ∅;
     replyAnalysisData := None;
     replyAnalysisResults := results |}.

(** The action object the preload effect writes for one flagged entry;
    [now] is what [new Date().toISOString()] returns at that moment. *)
Definition preloaded_action (now : string) (replyId : string) (s : FlaggedSentiment)
  : ModerationAction :=
  {| reply_id := replyId;
     action_type := match s with harmful => hide | unfriendly => blur end;
     reason := "Content flagged as " +:+ sentiment_str s +:+ " by AI analysis";
     sentiment := s;
     timestamp := now;
     status := "applied" |}.

(** [sentiment === 'harmful' || sentiment === 'unfriendly'], keeping
    which of the two it was. *)
Definition flagged (sentiment : option string) : option FlaggedSentiment :=
  match sentiment with
  | Some s =>
      if String.eqb s "harmful" then Some harmful
      else if String.eqb s "unfriendly" then Some unfriendly
      else None
  | None => None
  end.

(** The body of the [forEach] of the preload effect, for the entry at
    position [i]; [clock i] is the time read while it runs. *)
Definition preload_entry (clock : nat → string) (i : nat)
    (preloadedActions : gmap string jsval) (analysis : ReplyAnalysis)
  : gmap string jsval :=
  match flagged (entry_sentiment analysis) with
  | Some s =>
      <[ ra_reply_id analysis :=
           js_of_action (preloaded_action (clock i) (ra_reply_id analysis) s) ]>
        preloadedActions
  | None => preloadedActions
  end.

Fixpoint preload_from (clock : nat → string) (i : nat)
    (preloadedActions : gmap string jsval) (analyses : list ReplyAnalysis)
  : gmap string jsval :=
  match analyses with
  | [] => preloadedActions
  | analysis :: rest =>
      preload_from clock (S i) (preload_entry clock i preloadedActions analysis) rest
  end.

(** [const preloadedActions = new Map(); analyses.forEach(...)] *)
Definition buildPreloaded (clock : nat → string) (analyses : list ReplyAnalysis)
  : gmap string jsval :=
  preload_from clock 0 ∅ analyses.

(** The preload effect (it runs when [replyAnalysisData] changes): the
    Preloaded map is replaced when the payload has its list, and left as
    it is otherwise. *)
Definition preloadEffect (clock : nat → string) (st : State) : State :=
  match data_analyses (replyAnalysisData st) with
  | Some analyses =>
      {| moderationActions := moderationActions st;
         preloadedModerations := buildPreloaded clock analyses;
         replyAnalysisData := replyAnalysisData st;
         replyAnalysisResults := replyAnalysisResults st |}
  | None => st
  end.

(** [setReplyAnalysisData(replyData)] after a successful fetch. *)
Definition setReplyAnalysisData (data : AnalysisData) (st : State) : State :=
  {| moderationActions := moderationActions st;
     preloadedModerations := preloadedModerations st;
     replyAnalysisData := Some data;
     replyAnalysisResults := replyAnalysisResults st |}.

Definition setModerationActions (m : gmap string jsval) (st : State) : State :=
  {| moderationActions := m;
     preloadedModerations := preloadedModerations st;
     replyAnalysisData := replyAnalysisData st;
     replyAnalysisResults := replyAnalysisResults st |}.

(** The updater of the view's subscription:
    [newMap.set(update.action.reply_id, update.action)]. Reading
    [reply_id] off a missing action throws. An entry under a key that is
    no string can never be read back and is left out. *)
Definition liveUpdate (update : jsval) (prev : gmap string jsval)
  : completion (gmap string jsval) :=
  match get_prop update "action" with
  | Throw => Throw
  | Normal action =>
      match get_prop action "reply_id" with
      | Throw => Throw
      | Normal (VStr replyId) => Normal (<[ replyId := action ]> prev)
      | Normal _ => Normal prev
      end
  end.

(** [map.get(replyId)]: [undefined] when the key is absent. *)
Definition map_get (m : gmap string jsval) (replyId : string) : jsval :=
  match m !! replyId with
  | Some v => v
  | None => VUndefined
  end.

(** [actions.length > 0 ? actions[0] : null] *)
Definition first_or_null (actions : list jsval) : jsval :=
  match actions with
  | a :: _ => a
  | [] => VNull
  end.

(** The last step of [getReplyModerationInfo]: the list
    [analysis_result.moderation_actions] of the reply's entry in
    [replyAnalysisResults]. *)
Definition fallbackModeration (results : option ReplyAnalyzerResults) (replyId : string)
  : jsval :=
  match results with
  | None => VNull
  | Some r =>
      match reply_analyses r with
      | None => VNull
      | Some analyses =>
          let actions :=
            match find_analysis analyses replyId with
            | Some replyAnalysis =>
                match ra_analysis_result replyAnalysis with
                | Some res =>
                    match ar_moderation_actions res with
                    | Some l => l
                    | None => []
                    end
                | None => []
                end
            | None => []
            end in
          first_or_null actions
      end
  end.

Definition getReplyModerationInfo (st : State) (replyId : string) : jsval :=
  let realtimeAction := map_get (moderationActions st) replyId in
  if truthy realtimeAction then realtimeAction
  else
    let preloadedAction := map_get (preloadedModerations st) replyId in
    if truthy preloadedAction then preloadedAction
    else fallbackModeration (replyAnalysisResults st) replyId.

Definition shouldModerateContent (st : State) (replyId : string) : completion jsval :=
  let moderation := getReplyModerationInfo st replyId in
  if negb (truthy moderation) then Normal VNull
  else
    match has_prop "action_type" moderation with
    | Throw => Throw
    | Normal true => get_prop moderation "action_type"
    | Normal false => Normal VNull
    end.

(** [getReplySentiment] of the view: the label of the reply's entry in
    [replyAnalysisData], or [null]. *)
Definition getReplySentiment (st : State) (replyId : string) : option string :=
  match data_analyses (replyAnalysisData st) with
  | None => None
  | Some analyses =>
      match find_analysis analyses replyId with
      | Some replyAnalysis =>
          match entry_sentiment replyAnalysis with
          | Some s => if String.eqb s "" then None else Some s
          | None => None
          end
      | None => None
      end
  end.

(** How the view shows a reply's text (the "Content with moderation"
    block). *)
Inductive ContentView := ContentHidden | ContentBlurred | ContentPlain.

Definition renderContent (st : State) (reply : Reply) : completion ContentView :=
  match shouldModerateContent st (id reply) with
  | Throw => Throw
  | Normal moderationType =>
      if strict_eq_str moderationType "hide" then Normal ContentHidden
      else if strict_eq_str moderationType "blur" then Normal ContentBlurred
      else Normal ContentPlain
  end.

End App.

(* ===================================================================== *)
(** ** components/Reply.tsx: the Reply component *)
(* ===================================================================== *)

Module ReplyComponent.

(** The three [useState] cells; the stored action is the [update.action]
    of the last matching push message, [null] before any. *)
Record State := {
  moderationAction : jsval;
  isContentRevealed : bool;
  isMediaRevealed : bool;
}.

Definition initial : State :=
  {| moderationAction := VNull; isContentRevealed := false; isMediaRevealed := false |}.

Definition subscriptionId (reply : Reply) : string := "reply-" +:+ id reply.

(** The callback the component subscribes with. It returns the new
    state and how the call completed: reading [reply_id] off a missing
    [action] is a TypeError, raised before any setter runs. *)
Definition onUpdate (reply : Reply) (update : jsval) (st : State)
  : State * completion unit :=
  match get_prop update "action" with
  | Throw => (st, Throw)
  | Normal action =>
      match get_prop action "reply_id" with
      | Throw => (st, Throw)
      | Normal rid =>
          if strict_eq_str rid (id reply) then
            ({| moderationAction := action;
                isContentRevealed := false;
                isMediaRevealed := false |}, Normal tt)
          else (st, Normal tt)
      end
  end.

(** [setIsContentRevealed(true)] and [setIsMediaRevealed(true)], the
    click handlers. *)
Definition revealContent (st : State) : State :=
  {| moderationAction := moderationAction st;
     isContentRevealed := true;
     isMediaRevealed := isMediaRevealed st |}.

Definition revealMedia (st : State) : State :=
  {| moderationAction := moderationAction st;
     isContentRevealed := isContentRevealed st;
     isMediaRevealed := true |}.

(** [getReplySentiment]: the label of the reply's entry in the analysis
    data handed to the component, ['unknown'] when there is none. *)
Definition getReplySentiment (data : option AnalysisData) (replyId : string) : string :=
  match data_analyses data with
  | None => "unknown"
  | Some analyses =>
      match find_analysis analyses replyId with
      | Some replyAnalysis =>
          match entry_sentiment replyAnalysis with
          | Some s => if String.eqb s "" then "unknown" else s
          | None => "unknown"
          end
      | None => "unknown"
      end
  end.

(** [sentiment === 'harmful' ? 'hide' : sentiment === 'unfriendly' ? 'blur' : null] *)
Definition sentimentDefault (sentiment : string) : jsval :=
  if String.eqb sentiment "harmful" then VStr "hide"
  else if String.eqb sentiment "unfriendly" then VStr "blur"
  else VNull.

(** [moderationAction?.action_type || (...)] *)
Definition moderationType (st : State) (sentiment : string) : jsval :=
  js_or (opt_get (moderationAction st) "action_type") (sentimentDefault sentiment).

Definition moderationReason (st : State) (sentiment : string) : jsval :=
  js_or (opt_get (moderationAction st) "reason")
    (VStr (if String.eqb sentiment "harmful"
           then "This content contains harmful or hateful language"
           else if String.eqb sentiment "unfriendly"
           then "This content may be negative or dismissive"
           else "")).

Inductive TextView := TextBlurred | TextPlain | NoText.
Inductive MediaView := MediaHidden | MediaBlurred | MediaPlain | NoMedia.

(** What the component returns: the "Content hidden" notice (with the
    label it names and the reason line, when it has one), or the reply
    card with its text and media, each moderated or not. *)
Inductive View :=
| HiddenNotice (label : jsval) (reasonLine : option jsval)
| Card (text : TextView) (media : MediaView).

Definition hasMedia (reply : Reply) : bool :=
  match media_url reply with
  | Some url => negb (String.eqb url "")
  | None => false
  end.

Definition textView (mt : jsval) (st : State) : TextView :=
  if strict_eq_str mt "blur" && negb (isContentRevealed st) then TextBlurred else TextPlain.

Definition mediaView (mt : jsval) (st : State) : MediaView :=
  if truthy mt && negb (isMediaRevealed st) then
    (if strict_eq_str mt "hide" then MediaHidden else MediaBlurred)
  else MediaPlain.

Definition render (reply : Reply) (data : option AnalysisData) (st : State) : View :=
  let sentiment := getReplySentiment data (id reply) in
  let mt := moderationType st sentiment in
  let why := moderationReason st sentiment in
  if hidden reply || (strict_eq_str mt "hide" && negb (isContentRevealed st)) then
    HiddenNotice
      (js_or (js_or (opt_get (moderationAction st) "sentiment") (VStr sentiment))
             (VStr "harmful"))
      (if truthy why then Some why else None)
  else
    match type reply with
    | KText => Card (textView mt st) NoMedia
    | KImage =>
        if hasMedia reply then
          Card (if String.eqb (content reply) "" then NoText else textView mt st)
               (mediaView mt st)
        else Card NoText NoMedia
    | KGif =>
        if hasMedia reply then Card NoText (mediaView mt st) else Card NoText NoMedia
    end.

End ReplyComponent.

(* ===================================================================== *)
(** ** services/websocket.ts: the WebSocketService class *)
(* ===================================================================== *)

Module Websocket.

Inductive ReadyState := CONNECTING | OPEN | CLOSING | CLOSED.

(** A message event, as [JSON.parse(event.data)] reads it: the parsed
    value, or [Throw] for a SyntaxError. *)
Record MessageEvent := { parsed : completion jsval }.

(** The argument of [send], which is typed [any]: a value that
    [JSON.stringify] serialises ([Json v], the text being kept as the
    value [v] it encodes), or one it raises a TypeError on (an object
    with a cycle, a BigInt, a throwing [toJSON]). *)
Inductive SendData := Json (v : jsval) | Unserializable.

(** [JSON.stringify(data)] *)
Definition JSON_stringify (data : SendData) : completion jsval :=
  match data with
  | Json v => Normal v
  | Unserializable => Throw
  end.

Section Service.

(** The state the subscribers' callbacks work on. The callbacks of the
    repository (in App.tsx and Reply.tsx) only set React state; the model
    takes callbacks of that kind, which do not call back into the
    service. *)
Context {W : Type}.

Definition callback : Type := jsval → W → W * completion unit.

(** The fields of the class. [ws] and [reconnectTimer] name a socket and
    a timeout of the browser; [listeners] is the [Map], in insertion
    order. *)
Record WebSocketService := {
  ws : option nat;
  reconnectInterval : Z;
  reconnectTimer : option nat;
  listeners : list (string * callback);
  isConnecting : bool;
}.

(** The browser's side: the ready state of every socket constructed so
    far (each one carries the four handlers [connect] sets), the pending
    timeouts with their delays (each one calls [connect] when it fires),
    the next timeout id (ids are positive, so a stored id is truthy), and
    what was handed to [send]. *)
Record Browser := {
  sockets : list ReadyState;
  timers : list (nat * Z);
  next_timer : nat;
  sent : list (nat * jsval);
}.

(** [calls] is a ghost log: one entry, subscription id and argument, per
    call of a subscriber's callback. *)
Record World := {
  svc : WebSocketService;
  env : Browser;
  app : W;
  calls : list (string * jsval);
}.

Definition new_service : WebSocketService :=
  {| ws := None;
     reconnectInterval := 5000;
     reconnectTimer := None;
     listeners := [];
     isConnecting := false |}.

Definition init (a : W) : World :=
  {| svc := new_service;
     env := {| sockets := []; timers := []; next_timer := 1; sent := [] |};
     app := a;
     calls := [] |}.

(** *** Statements that may throw *)

Definition Js (A : Type) : Type := World → World * completion A.

Definition ret {A} (a : A) : Js A := fun w => (w, Normal a).

Definition bind {A B} (m : Js A) (k : A → Js B) : Js B :=
  fun w =>
    match m w with
    | (w', Normal a) => k a w'
    | (w', Throw) => (w', Throw)
    end.

(** [try { body } catch (error) { handler }] *)
Definition try_catch {A} (body handler : Js A) : Js A :=
  fun w =>
    match body w with
    | (w', Normal a) => (w', Normal a)
    | (w', Throw) => handler w'
    end.

Definition gets {A} (f : World → A) : Js A := fun w => (w, Normal (f w)).
Definition modify (f : World → World) : Js unit := fun w => (f w, Normal tt).
Definition lift {A} (c : completion A) : Js A := fun w => (w, c).

Notation "'let!' x ':=' m 'in' k" := (bind m (fun x => k))
  (at level 10, x name, m at level 100, k at level 200).
Notation "m '>>' k" := (bind m (fun _ => k))
  (at level 100, k at level 200, right associativity).

(** *** Field assignments *)

Definition with_svc (f : WebSocketService → WebSocketService) (w : World) : World :=
  {| svc := f (svc w); env := env w; app := app w; calls := calls w |}.

Definition with_env (f : Browser → Browser) (w : World) : World :=
  {| svc := svc w; env := f (env w); app := app w; calls := calls w |}.

Definition set_ws (v : option nat) : Js unit :=
  modify (with_svc (fun s =>
    {| ws := v; reconnectInterval := reconnectInterval s;
       reconnectTimer := reconnectTimer s; listeners := listeners s;
       isConnecting := isConnecting s |})).

Definition set_reconnectTimer (v : option nat) : Js unit :=
  modify (with_svc (fun s =>
    {| ws := ws s; reconnectInterval := reconnectInterval s;
       reconnectTimer := v; listeners := listeners s;
       isConnecting := isConnecting s |})).

Definition set_listeners (v : list (string * callback)) : Js unit :=
  modify (with_svc (fun s =>
    {| ws := ws s; reconnectInterval := reconnectInterval s;
       reconnectTimer := reconnectTimer s; listeners := v;
       isConnecting := isConnecting s |})).

Definition set_isConnecting (v : bool) : Js unit :=
  modify (with_svc (fun s =>
    {| ws := ws s; reconnectInterval := reconnectInterval s;
       reconnectTimer := reconnectTimer s; listeners := listeners s;
       isConnecting := v |})).

(** *** The browser's operations *)

(** [new WebSocket(wsUrl)]: [ctor_ok] says whether the constructor
    returns (a socket in state CONNECTING) or throws. *)
Definition new_WebSocket (ctor_ok : bool) : Js nat :=
  fun w =>
    if ctor_ok then
      (with_env (fun b =>
         {| sockets := sockets b ++ [CONNECTING]; timers := timers b;
            next_timer := next_timer b; sent := sent b |}) w,
       Normal (length (sockets (env w))))
    else (w, Throw).

(** [setTimeout(() => this.connect(), delay)] *)
Definition setTimeout (delay : Z) : Js nat :=
  fun w =>
    (with_env (fun b =>
       {| sockets := sockets b; timers := timers b ++ [(next_timer b, delay)];
          next_timer := S (next_timer b); sent := sent b |}) w,
     Normal (next_timer (env w))).

(** [clearTimeout(t)] *)
Definition clearTimeout (t : nat) : Js unit :=
  modify (with_env (fun b =>
    {| sockets := sockets b;
       timers := List.filter (fun p => negb (Nat.eqb (fst p) t)) (timers b);
       next_timer := next_timer b; sent := sent b |})).

Definition set_readyState (s : nat) (r : ReadyState) (w : World) : World :=
  with_env (fun b =>
    {| sockets := <[ s := r ]> (sockets b); timers := timers b;
       next_timer := next_timer b; sent := sent b |}) w.

(** [socket.close()]: starts the closing handshake unless the socket is
    closing or closed already; the close event comes later. *)
Definition ws_close (s : nat) : Js unit :=
  fun w =>
    match sockets (env w) !! s with
    | Some CONNECTING | Some OPEN => (set_readyState s CLOSING w, Normal tt)
    | _ => (w, Normal tt)
    end.

(** [socket.send(text)] on an open socket; [data] is what the text
    encodes. *)
Definition ws_send (s : nat) (data : jsval) : Js unit :=
  modify (with_env (fun b =>
    {| sockets := sockets b; timers := timers b;
       next_timer := next_timer b; sent := sent b ++ [(s, data)] |})).

(** [this.ws?.readyState === WebSocket.OPEN] *)
Definition ws_is_open (w : World) : bool :=
  match ws (svc w) with
  | Some s =>
      match sockets (env w) !! s with
      | Some OPEN => true
      | _ => false
      end
  | None => false
  end.

(** [Map.prototype.set]: an existing key keeps its place. *)
Fixpoint map_set (l : list (string * callback)) (k : string) (cb : callback)
  : list (string * callback) :=
  match l with
  | [] => [(k, cb)]
  | (k', cb') :: rest =>
      if String.eqb k' k then (k, cb) :: rest else (k', cb') :: map_set rest k cb
  end.

(** [Map.prototype.delete] *)
Definition map_delete (l : list (string * callback)) (k : string)
  : list (string * callback) :=
  List.filter (fun p => negb (String.eqb (fst p) k)) l.

(** [Map.prototype.forEach]: an exception out of [f] ends the loop. *)
Fixpoint forEach (l : list (string * callback)) (f : string → callback → Js unit)
  : Js unit :=
  match l with
  | [] => ret tt
  | (k, cb) :: rest => f k cb >> forEach rest f
  end.

(** [callback(data)], logged. *)
Definition call (k : string) (cb : callback) (data : jsval) : Js unit :=
  fun w =>
    let (a, c) := cb data (app w) in
    ({| svc := svc w; env := env w; app := a; calls := calls w ++ [(k, data)] |}, c).

(** *** The methods *)

Definition clearReconnectTimer : Js unit :=
  let! t := gets (fun w => reconnectTimer (svc w)) in
  match t with
  | Some tid => clearTimeout tid >> set_reconnectTimer None
  | None => ret tt
  end.

Definition scheduleReconnect : Js unit :=
  clearReconnectTimer >>
  let! interval := gets (fun w => reconnectInterval (svc w)) in
  let! tid := setTimeout interval in
  set_reconnectTimer (Some tid).

Definition connect (ctor_ok : bool) : Js unit :=
  let! is_open := gets ws_is_open in
  let! connecting := gets (fun w => isConnecting (svc w)) in
  if is_open || connecting then ret tt
  else
    set_isConnecting true >>
    try_catch
      (let! s := new_WebSocket ctor_ok in set_ws (Some s))
      (set_isConnecting false >> scheduleReconnect).

Definition notifyListeners (data : jsval) : Js unit :=
  let! ls := gets (fun w => listeners (svc w)) in
  forEach ls (fun k cb => try_catch (call k cb data) (ret tt)).

Definition ws_onopen : Js unit :=
  set_isConnecting false >> clearReconnectTimer.

Definition ws_onmessage (event : MessageEvent) : Js unit :=
  try_catch
    (let! data := lift (parsed event) in
     let! ty := lift (get_prop data "type") in
     if strict_eq_str ty "content_moderation" then notifyListeners data else ret tt)
    (ret tt).

Definition ws_onerror : Js unit :=
  set_isConnecting false.

Definition ws_onclose : Js unit :=
  set_isConnecting false >> scheduleReconnect.

Definition disconnect : Js unit :=
  clearReconnectTimer >>
  (let! s := gets (fun w => ws (svc w)) in
   match s with
   | Some sock => ws_close sock >> set_ws None
   | None => ret tt
   end) >>
  set_listeners [].

Definition subscribe (k : string) (cb : callback) : Js unit :=
  let! ls := gets (fun w => listeners (svc w)) in
  set_listeners (map_set ls k cb).

Definition unsubscribe (k : string) : Js unit :=
  let! ls := gets (fun w => listeners (svc w)) in
  set_listeners (map_delete ls k).

(** [if (this.ws?.readyState === WebSocket.OPEN)
      this.ws.send(JSON.stringify(data))]: the serialisation runs only on
    an open connection, outside any [try]. *)
Definition send (data : SendData) : Js unit :=
  let! is_open := gets ws_is_open in
  if is_open then
    let! s := gets (fun w => ws (svc w)) in
    match s with
    | Some sock =>
        let! text := lift (JSON_stringify data) in
        ws_send sock text
    | None => ret tt
    end
  else ret tt.

(** *** The event loop *)

(** What can happen to the service: a call of one of its public methods,
    an event of one of its sockets, or a timeout firing. When a
    connection fails the browser fires [error] and then [close] in one
    task ([SockFail]); a clean close fires [close] alone. *)
Inductive event :=
| CallConnect (ctor_ok : bool)
| CallDisconnect
| CallSubscribe (k : string) (cb : callback)
| CallUnsubscribe (k : string)
| CallSend (data : SendData)
| SockOpen (s : nat)
| SockMessage (s : nat) (ev : MessageEvent)
| SockFail (s : nat)
| SockClose (s : nat)
| TimerFire (t : nat) (ctor_ok : bool).

Definition run (m : Js unit) (w : World) : World := fst (m w).

Definition timer_pending (t : nat) (w : World) : bool :=
  existsb (fun p => Nat.eqb (fst p) t) (timers (env w)).

(** The browser takes a timeout off its list before it runs it. *)
Definition take_timer (t : nat) (w : World) : World :=
  with_env (fun b =>
    {| sockets := sockets b;
       timers := List.filter (fun p => negb (Nat.eqb (fst p) t)) (timers b);
       next_timer := next_timer b; sent := sent b |}) w.

(** One turn of the event loop; [None] when the browser cannot produce
    the event in this state. *)
Definition step (w : World) (e : event) : option World :=
  match e with
  | CallConnect ctor_ok => Some (run (connect ctor_ok) w)
  | CallDisconnect => Some (run disconnect w)
  | CallSubscribe k cb => Some (run (subscribe k cb) w)
  | CallUnsubscribe k => Some (run (unsubscribe k) w)
  | CallSend data => Some (run (send data) w)
  | SockOpen s =>
      match sockets (env w) !! s with
      | Some CONNECTING => Some (run ws_onopen (set_readyState s OPEN w))
      | _ => None
      end
  | SockMessage s ev =>
      match sockets (env w) !! s with
      | Some OPEN => Some (run (ws_onmessage ev) w)
      | _ => None
      end
  | SockFail s =>
      match sockets (env w) !! s with
      | Some CLOSED | None => None
      | Some _ => Some (run (ws_onerror >> ws_onclose) (set_readyState s CLOSED w))
      end
  | SockClose s =>
      match sockets (env w) !! s with
      | Some CLOSED | None => None
      | Some _ => Some (run ws_onclose (set_readyState s CLOSED w))
      end
  | TimerFire t ctor_ok =>
      if timer_pending t w then Some (run (connect ctor_ok) (take_timer t w))
      else None
  end.

Fixpoint exec (w : World) (trace : list event) : option World :=
  match trace with
  | [] => Some w
  | e :: rest =>
      match step w e with
      | Some w' => exec w' rest
      | None => None
      end
  end.

Inductive reachable : World → Prop :=
| reachable_init (a : W) : reachable (init a)
| reachable_step (w w' : World) (e : event) :
    reachable w → step w e = Some w' → reachable w'.

End Service.

Arguments WebSocketService W : clear implicits.
Arguments World W : clear implicits.
Arguments callback W : clear implicits.
Arguments event W : clear implicits.

End Websocket.

(* ===================================================================== *)
(** ** Relabelling an analysis payload *)
(* ===================================================================== *)

(** The same analysis results with every sentiment label rewritten by
    [f]; used to say that a computation does not read the labels. *)
Definition relabel_result (f : option string → option string) (r : AnalysisResult)
  : AnalysisResult :=
  {| ar_sentiment := f (ar_sentiment r);
     ar_author_important := ar_author_important r;
     ar_moderation_actions := ar_moderation_actions r |}.

Definition relabel_entry (f : option string → option string) (a : ReplyAnalysis)
  : ReplyAnalysis :=
  {| ra_reply_id := ra_reply_id a;
     ra_analysis_result := option_map (relabel_result f) (ra_analysis_result a) |}.

Definition relabel (f : option string → option string) (r : ReplyAnalyzerResults)
  : ReplyAnalyzerResults :=
  {| reply_analyses := option_map (List.map (relabel_entry f)) (reply_analyses r) |}.

(** The last flagged entry for [replyId] in a payload list, with its
    position (counted from [i]): the one whose action the preload loop
    leaves in the map. *)
Fixpoint last_flagged (i : nat) (analyses : list ReplyAnalysis) (replyId : string)
  : option (nat * FlaggedSentiment) :=
  match analyses with
  | [] => None
  | a :: rest =>
      match last_flagged (S i) rest replyId with
      | Some r => Some r
      | None =>
          if String.eqb (ra_reply_id a) replyId
          then option_map (pair i) (App.flagged (entry_sentiment a))
          else None
      end
  end.

(* ===================================================================== *)
(** ** Reply components on the channel *)
(* ===================================================================== *)

Module Feed.

(** The state of the mounted [Reply] components, by reply id. *)
Abbreviation States := (gmap string ReplyComponent.State).

(** The state a matching update leaves. *)
Definition rehidden (action : jsval) : ReplyComponent.State :=
  {| ReplyComponent.moderationAction := action;
     ReplyComponent.isContentRevealed := false;
     ReplyComponent.isMediaRevealed := false |}.

(** The callback of the component showing [reply], acting on that
    component's state cells. *)
Definition replyListener (reply : Reply) : Websocket.callback States :=
  fun update states =>
    match states !! id reply with
    | Some st =>
        let (st', c) := ReplyComponent.onUpdate reply update st in
        (<[ id reply := st' ]> states, c)
    | None => (states, Normal tt)
    end.

(** The registry after each reply of the list has mounted and
    subscribed under [reply-<id>]. *)
Definition mountedListeners (replies : list Reply)
  : list (string * Websocket.callback States) :=
  List.map (fun r => (ReplyComponent.subscriptionId r, replyListener r)) replies.

End Feed.

(* ===================================================================== *)
(** ** Statements about the channel *)
(* ===================================================================== *)

Module Channel.
Import Websocket.

Section Predicates.
Context {W : Type}.

(** At most one timeout is pending, with the fixed delay, and it is the
    one the service remembers. *)
Definition timer_inv (w : World W) : Prop :=
  reconnectInterval (svc w) = 5000%Z
  ∧ (timers (env w) = []
     ∨ ∃ t, timers (env w) = [(t, 5000%Z)] ∧ reconnectTimer (svc w) = Some t).

(** Exactly one reconnect is pending: one timeout, 5000 ms, remembered. *)
Definition one_reconnect_pending (w : World W) : Prop :=
  ∃ t, timers (env w) = [(t, 5000%Z)] ∧ reconnectTimer (svc w) = Some t.

(** The world after every listener of [ls] was called with [data], in
    order, each call logged, whatever each call returned or threw. *)
Definition delivered (ls : list (string * callback W)) (data : jsval) (w : World W)
  : World W :=
  {| svc := svc w;
     env := env w;
     app := fold_left (fun a p => fst (snd p data a)) ls (app w);
     calls := calls w ++ List.map (fun p => (fst p, data)) ls |}.

(** The message is an envelope with the handled discriminator. *)
Definition has_discriminator (data : jsval) : Prop :=
  get_prop data "type" = Normal (VStr "content_moderation").

(** The message has the expected update shape: the typed envelope
    around one well-formed moderation action. *)
Definition conforming (event : MessageEvent) : Prop :=
  ∃ data action,
    parsed event = Normal data
    ∧ has_discriminator data
    ∧ get_prop data "action" = Normal action
    ∧ is_action action.

(** How often subscription [k] was called in a stretch of the log. *)
Definition times_called (k : string) (log : list (string * jsval)) : nat :=
  length (List.filter (fun p => String.eqb (fst p) k) log).

(** The world once the reconnect timer is cancelled and forgotten. *)
Definition cleared (w : World W) : World W :=
  {| svc := {| ws := ws (svc w);
               reconnectInterval := reconnectInterval (svc w);
               reconnectTimer := None;
               listeners := listeners (svc w);
               isConnecting := isConnecting (svc w) |};
     env := {| sockets := sockets (env w); timers := [];
               next_timer := next_timer (env w); sent := sent (env w) |};
     app := app w;
     calls := calls w |}.

(** The world once a fresh 5000 ms timeout is the only one pending. *)
Definition scheduled (w : World W) : World W :=
  {| svc := {| ws := ws (svc w);
               reconnectInterval := reconnectInterval (svc w);
               reconnectTimer := Some (next_timer (env w));
               listeners := listeners (svc w);
               isConnecting := isConnecting (svc w) |};
     env := {| sockets := sockets (env w);
               timers := [(next_timer (env w), 5000%Z)];
               next_timer := S (next_timer (env w)); sent := sent (env w) |};
     app := app w;
     calls := calls w |}.

(** No socket can fire an event any more. *)
Definition all_closed (w : World W) : Prop :=
  ∀ s r, sockets (env w) !! s = Some r → r = CLOSED.

(** Socket [s] is connecting, open or closing. *)
Definition live (w : World W) (s : nat) : Prop :=
  ∃ r, sockets (env w) !! s = Some r ∧ r ≠ CLOSED.



End Predicates.
End Channel.

(* ===================================================================== *)
(** ** Sample data *)
(* ===================================================================== *)

Module Sample.

Definition alice : Author :=
  {| author_name := "alice"; avatar := "alice.png"; verified := None |}.

(** A text reply; [flag] is its static [hidden] flag. *)
Definition textReply (replyId : string) (flag : bool) : Reply :=
  {| id := replyId; type := KText; content := "some text"; media_url := None;
     author := alice; language := "en"; hidden := flag |}.

Definition pushed (replyId : string) (t : ActionType) : ModerationAction :=
  {| reply_id := replyId; action_type := t; reason := "flagged by the backend";
     sentiment := match t with hide => harmful | blur => unfriendly end;
     timestamp := "2025-01-01T00:00:00.000Z"; status := "applied" |}.

(** An analysis entry that carries a sentiment label and nothing else. *)
Definition labelled (replyId label : string) : ReplyAnalysis :=
  {| ra_reply_id := replyId;
     ra_analysis_result :=
       Some {| ar_sentiment := Some label; ar_author_important := None;
               ar_moderation_actions := None |} |}.

Definition results (l : list ReplyAnalysis) : ReplyAnalyzerResults :=
  {| reply_analyses := Some l |}.

Definition payload (l : list ReplyAnalysis) : AnalysisData :=
  {| reply_analyzer_results := Some (results l) |}.

Definition clock0 (i : nat) : string := "2025-01-01T00:00:00.000Z".

(** A view with a Live hide for r2 and a Preloaded blur for r2. *)
Definition bothLayers : App.State :=
  {| App.moderationActions := {[ "r2" := js_of_action (pushed "r2" hide) ]};
     App.preloadedModerations :=
       {[ "r2" := js_of_action (App.preloaded_action "t0" "r2" unfriendly) ]};
     App.replyAnalysisData := None;
     App.replyAnalysisResults := None |}.

(** A view whose batch fetch failed: both maps empty, while the parent's
    analysis results label r1 harmful. *)
Definition labelOnly : App.State :=
  App.initial (Some (results [labelled "r1" "harmful"])).

(** A view right after the batch payload arrived and before the preload
    effect ran: the payload labels r1 harmful, the Preloaded map is
    still empty. *)
Definition beforePreload : App.State :=
  App.setReplyAnalysisData (payload [labelled "r1" "harmful"]) (App.initial None).

(** An entry labelled [label] whose [moderation_actions] is [acts]. *)
Definition withActions (replyId label : string) (acts : list jsval) : ReplyAnalysis :=
  {| ra_reply_id := replyId;
     ra_analysis_result :=
       Some {| ar_sentiment := Some label; ar_author_important := None;
               ar_moderation_actions := Some acts |} |}.

(** An action as the analysis results carry them, with an
    [action_type] of its own. *)
Definition listedBlur : jsval :=
  VObj [("tool_name", VStr "blur_text_content"); ("action_type", VStr "blur")].

(** A settled view: the payload labels r3 friendly and the preload
    effect has run, while the parent's analysis results list a blur for
    r3. *)
Definition settledFriendly : App.State :=
  App.preloadEffect clock0
    (App.setReplyAnalysisData (payload [labelled "r3" "friendly"])
       (App.initial (Some (results [withActions "r3" "friendly" [listedBlur]])))).

(** Subscribers over a counter: one that counts its calls, one that
    counts and then throws. *)
Definition counting : Websocket.callback nat := fun _ n => (S n, Normal tt).
Definition failing : Websocket.callback nat := fun _ n => (S n, Throw).

Definition after (trace : list (Websocket.event nat)) : Websocket.World nat :=
  match Websocket.exec (Websocket.init 0) trace with
  | Some w => w
  | None => Websocket.init 0
  end.

(** The view has subscribed and called [connect]; the socket is still
    connecting. *)
Definition connecting : Websocket.World nat :=
  after [Websocket.CallSubscribe "hateraide-analysis" counting;
         Websocket.CallConnect true].

(** The same, with the connection open. *)
Definition connected : Websocket.World nat :=
  after [Websocket.CallSubscribe "hateraide-analysis" counting;
         Websocket.CallConnect true;
         Websocket.SockOpen 0].

(** The connection was lost; the service waits to reconnect. *)
Definition waiting : Websocket.World nat :=
  after [Websocket.CallSubscribe "hateraide-analysis" counting;
         Websocket.CallConnect true;
         Websocket.SockOpen 0;
         Websocket.SockFail 0].

(** Three subscribers, the middle one throwing. *)
Definition threeListeners : Websocket.World nat :=
  after [Websocket.CallSubscribe "a" counting;
         Websocket.CallSubscribe "b" failing;
         Websocket.CallSubscribe "c" counting;
         Websocket.CallConnect true;
         Websocket.SockOpen 0].

(** Messages: one that does not parse, a ping, an envelope with the
    handled discriminator and no action, and a well-formed update. *)
Definition garbled : Websocket.MessageEvent := {| Websocket.parsed := Throw |}.

Definition ping : Websocket.MessageEvent :=
  {| Websocket.parsed := Normal (VObj [("type", VStr "ping")]) |}.

Definition bareEnvelope : jsval := VObj [("type", VStr "content_moderation")].

Definition actionless : Websocket.MessageEvent :=
  {| Websocket.parsed := Normal bareEnvelope |}.

Definition update (replyId : string) (t : ActionType) : Websocket.MessageEvent :=
  {| Websocket.parsed := Normal (js_of_update (pushed replyId t)) |}.

(** A feed of two replies, r1 already revealed by the user. *)
Definition revealed : ReplyComponent.State :=
  {| ReplyComponent.moderationAction := js_of_action (pushed "r1" blur);
     ReplyComponent.isContentRevealed := true;
     ReplyComponent.isMediaRevealed := true |}.

Definition feedReplies : list Reply := [textReply "r1" false; textReply "r2" false].

Definition feed : Websocket.World Feed.States :=
  {| Websocket.svc :=
       {| Websocket.ws := None; Websocket.reconnectInterval := 5000;
          Websocket.reconnectTimer := None;
          Websocket.listeners := Feed.mountedListeners feedReplies;
          Websocket.isConnecting := false |};
     Websocket.env := Websocket.env (Websocket.init 0);
     Websocket.app := {[ "r1" := revealed; "r2" := ReplyComponent.initial ]};
     Websocket.calls := [] |}.

End Sample.

(* ===================================================================== *)
(** ** App.tsx: the rest of the HaterAideAnalysis view *)
(* ===================================================================== *)

(** [o] is a string and is not empty (what [if (o)] tests on an optional
    string). *)
Definition str_truthy (o : option string) : bool :=
  match o with
  | Some s => negb (String.eqb s "")
  | None => false
  end.

Module Snapshot.

(** The body of [/api/moderation-status], as the view reads it: an
    optional object [moderation_actions] from reply id to action. *)
Record StatusResponse := {
  moderation_actions : option (gmap string jsval);
}.

(** The [then] of the initial fetch: a [Map] is built from
    [Object.entries(data.moderation_actions)] and handed to
    [setModerationActions]. *)
Definition loadInitialStatus (data : StatusResponse) (st : App.State) : App.State :=
  match moderation_actions data with
  | Some actions => App.setModerationActions actions st
  | None => st
  end.


End Snapshot.

Module Suggestions.

(** [next_step_analysis.recommended_next_steps[]] and
    [next_step_analysis.important_responders[]] of the next-steps
    payload. *)
Record Recommendation := {
  rec_reply_id : option string;
  responder : option string;
  suggested_response : option string;
}.

Record NextStepAnalysis := {
  recommended_next_steps : option (list Recommendation);
}.

Record NextStepsData := {
  next_step_analysis : option NextStepAnalysis;
}.

(** The cells of the view the reply box reads and writes. *)
Record State := {
  nextStepsData : option NextStepsData;
  preloadedSuggestions : gmap string string;
  replyingToId : option string;
  replyText : string;
}.

(** [nextStepsData?.next_step_analysis?.recommended_next_steps] *)
Definition data_steps (data : option NextStepsData) : option (list Recommendation) :=
  match data with
  | Some d =>
      match next_step_analysis d with
      | Some a => recommended_next_steps a
      | None => None
      end
  | None => None
  end.

(** The body of the [forEach]:
    [if (action.reply_id && action.suggested_response) map.set(...)]. *)
Definition suggest_entry (m : gmap string string) (action : Recommendation)
  : gmap string string :=
  match rec_reply_id action, suggested_response action with
  | Some k, Some v =>
      if negb (String.eqb k "") && negb (String.eqb v "") then <[ k := v ]> m else m
  | _, _ => m
  end.

Definition buildSuggestions (steps : list Recommendation) : gmap string string :=
  fold_left suggest_entry steps ∅.

(** The effect on [nextStepsData]. *)
Definition suggestionsEffect (st : State) : State :=
  match data_steps (nextStepsData st) with
  | Some steps =>
      {| nextStepsData := nextStepsData st;
         preloadedSuggestions := buildSuggestions steps;
         replyingToId := replyingToId st;
         replyText := replyText st |}
  | None => st
  end.

(** The click on a reply's Reply button. *)
Definition handleNotableUserReply (replyId : string) (st : State) : State :=
  if bool_decide (replyingToId st = Some replyId) then
    {| nextStepsData := nextStepsData st;
       preloadedSuggestions := preloadedSuggestions st;
       replyingToId := None;
       replyText := "" |}
  else
    {| nextStepsData := nextStepsData st;
       preloadedSuggestions := preloadedSuggestions st;
       replyingToId := Some replyId;
       replyText :=
         if str_truthy (preloadedSuggestions st !! replyId)
         then default "" (preloadedSuggestions st !! replyId)
         else "" |}.

(** Typing in the box: [setReplyText(e.target.value)]. *)
Definition typeReply (value : string) (st : State) : State :=
  {| nextStepsData := nextStepsData st;
     preloadedSuggestions := preloadedSuggestions st;
     replyingToId := replyingToId st;
     replyText := value |}.

(** Whether the box under the reply is shown. *)
Definition boxOpen (replyId : string) (st : State) : bool :=
  bool_decide (replyingToId st = Some replyId).

End Suggestions.

Module Summary.

(** The general-sentiment summary as the view prints it; a character of
    the model stands for one UTF-16 code unit of the string. *)
Definition collapsed (summary : string) : string :=
  String.substring 0 150 summary
  +:+ (if (150 <? String.length summary)%nat then "..." else "").

Definition shown (isExpanded : bool) (summary : string) : string :=
  if isExpanded then summary else collapsed summary.

(** Whether the "See more" / "See less" button is rendered. *)
Definition hasToggle (summary : string) : bool :=
  (150 <? String.length summary)%nat.

End Summary.

(* ===================================================================== *)
(** ** App.tsx: the App component *)
(* ===================================================================== *)

Module Navigation.

Inductive PostKind := PText | PImage.

Record Post := {
  post_id : string;
  post_type : PostKind;
  post_content : string;
  image_url : option string;
  post_author : Author;
  post_timestamp : string;
  reactions : option (gmap string Z);
  total_replies : option Z;
  replies : list Reply;
}.

Inductive View := feed | analysis.

Definition view_str (v : View) : string :=
  match v with feed => "feed" | analysis => "analysis" end.

(** The cells of the component that decide what is shown; [data] is the
    list [posts] of the mock data once it is loaded. *)
Record State := {
  data : option (list Post);
  currentView : View;
  selectedPostId : option string;
  selectedPost : option Post;
}.

(** [posts.find(p => p.id === postId)] *)
Definition find_post (posts : list Post) (postId : string) : option Post :=
  List.find (fun p => String.eqb (post_id p) postId) posts.

(** The initial cells after a page load, read from [localStorage]. *)
Definition restore (storage : gmap string string) : State :=
  {| data := None;
     currentView :=
       match storage !! "hateraide_view" with
       | Some saved => if String.eqb saved "analysis" then analysis else feed
       | None => feed
       end;
     selectedPostId := storage !! "hateraide_post_id";
     selectedPost := None |}.

(** The effect that writes the view and the post id to [localStorage]. *)
Definition persist (st : State) (storage : gmap string string) : gmap string string :=
  let stored := <[ "hateraide_view" := view_str (currentView st) ]> storage in
  if str_truthy (selectedPostId st)
  then <[ "hateraide_post_id" := default "" (selectedPostId st) ]> stored
  else delete "hateraide_post_id" stored.

(** [setData(data)] when the mock data arrives. *)
Definition setData (posts : list Post) (st : State) : State :=
  {| data := Some posts;
     currentView := currentView st;
     selectedPostId := selectedPostId st;
     selectedPost := selectedPost st |}.

(** The effect that recovers [selectedPost] from the data. *)
Definition recoverEffect (st : State) : State :=
  match data st, selectedPost st with
  | Some posts, None =>
      if str_truthy (selectedPostId st) then
        match find_post posts (default "" (selectedPostId st)) with
        | Some post =>
            {| data := data st; currentView := currentView st;
               selectedPostId := selectedPostId st; selectedPost := Some post |}
        | None => st
        end
      else st
  | _, _ => st
  end.

(** The synchronous part of [handleEnableHaterAide]: the post is looked
    up and, when found, selected and the view switched. *)
Definition enableHaterAide (postId : string) (st : State) : State :=
  match data st with
  | Some posts =>
      match find_post posts postId with
      | Some post =>
          {| data := data st; currentView := analysis;
             selectedPostId := Some postId; selectedPost := Some post |}
      | None => st
      end
  | None => st
  end.

(** The [onBack] of the analysis view. *)
Definition goBack (st : State) : State :=
  {| data := data st; currentView := feed;
     selectedPostId := None; selectedPost := None |}.

(** [selectedPost || (selectedPostId && data?.posts.find(...))] *)
Definition postToShow (st : State) : option Post :=
  match selectedPost st with
  | Some post => Some post
  | None =>
      if str_truthy (selectedPostId st) then
        match data st with
        | Some posts => find_post posts (default "" (selectedPostId st))
        | None => None
        end
      else None
  end.

(** The post the [else if (data && selectedPostId)] branch of the render
    hands to [setSelectedPost], if it gets there and finds one. *)
Definition renderRecovery (st : State) : option Post :=
  match currentView st, postToShow st with
  | analysis, None =>
      match data st with
      | Some posts =>
          if str_truthy (selectedPostId st)
          then find_post posts (default "" (selectedPostId st))
          else None
      | None => None
      end
  | _, _ => None
  end.

(** Which page the component returns; the loading screen only shows in
    the feed view. *)
Inductive Page := AnalysisPage (post : Post) | LoadingPage | FeedPage.

Definition render (loading : bool) (st : State) : Page :=
  match currentView st, postToShow st with
  | analysis, Some post => AnalysisPage post
  | analysis, None => FeedPage
  | feed, _ => if loading then LoadingPage else FeedPage
  end.

End Navigation.

(* ===================================================================== *)
(** ** App.tsx, earlier revision: decisions by tool name *)
(* ===================================================================== *)

Module ToolView.

(** [getReplyModerationInfo] of that revision: the reply's whole
    [moderation_actions] list, or [null]. *)
Definition getReplyModerationInfo (results : option ReplyAnalyzerResults)
    (replyId : string) : option (list jsval) :=
  match results with
  | None => None
  | Some r =>
      match reply_analyses r with
      | None => None
      | Some analyses =>
          match find_analysis analyses replyId with
          | Some replyAnalysis =>
              match ra_analysis_result replyAnalysis with
              | Some res => ar_moderation_actions res
              | None => None
              end
          | None => None
          end
      end
  end.

(** [actions.some(action => action.tool_name === name)]: the elements
    are tested in order up to the first hit; reading [tool_name] off a
    [null] element throws. *)
Fixpoint some_tool (name : string) (actions : list jsval) : completion bool :=
  match actions with
  | [] => Normal false
  | action :: rest =>
      match get_prop action "tool_name" with
      | Throw => Throw
      | Normal t => if strict_eq_str t name then Normal true else some_tool name rest
      end
  end.

(** [moderationActions?.some(...)]: [None] stands for [undefined]. *)
Definition uses_tool (name : string) (results : option ReplyAnalyzerResults)
    (replyId : string) : completion (option bool) :=
  match getReplyModerationInfo results replyId with
  | None => Normal None
  | Some actions =>
      match some_tool name actions with
      | Normal b => Normal (Some b)
      | Throw => Throw
      end
  end.

Definition shouldBlurContent := uses_tool "blur_text_content".
Definition shouldMinimizeMedia := uses_tool "minimize_media_content".

End ToolView.

(* ===================================================================== *)
(** ** App.tsx, the earlier revision, on the payload as it arrives *)
(* ===================================================================== *)

(** [replyAnalysisResults] is typed [any]. [ToolView] reads a payload of
    the declared shape; the functions here are the same ones on whatever
    value arrived, with the TypeErrors a value of another shape
    causes. *)
Module Raw.

(** The callback of [find] over the elements of an array:
    [analysis => analysis.reply_id === replyId], tried in order up to the
    first hit; [undefined] when there is none. Reading [reply_id] off a
    [null] or [undefined] element throws. *)
Fixpoint find_by_id (replyId : string) (elems : list jsval) : completion jsval :=
  match elems with
  | [] => Normal VUndefined
  | analysis :: rest =>
      match get_prop analysis "reply_id" with
      | Throw => Throw
      | Normal rid =>
          if strict_eq_str rid replyId then Normal analysis
          else find_by_id replyId rest
      end
  end.

(** [v.find(...)]: only an array has the method; on any other value the
    call is a TypeError. *)
Definition array_find (replyId : string) (v : jsval) : completion jsval :=
  match v with
  | VArr elems => find_by_id replyId elems
  | _ => Throw
  end.

Definition getReplyModerationInfo (replyAnalysisResults : jsval) (replyId : string)
  : completion jsval :=
  let analyses := opt_get replyAnalysisResults "reply_analyses" in
  if negb (truthy analyses) then Normal VNull
  else
    match array_find replyId analyses with
    | Throw => Throw
    | Normal replyAnalysis =>
        Normal (js_or (opt_get (opt_get replyAnalysis "analysis_result")
                         "moderation_actions")
                      VNull)
    end.

(** [moderationActions?.some(action => action.tool_name === name)]:
    [None] stands for [undefined]; only an array has [some]. *)
Definition uses_tool (name : string) (replyAnalysisResults : jsval) (replyId : string)
  : completion (option bool) :=
  match getReplyModerationInfo replyAnalysisResults replyId with
  | Throw => Throw
  | Normal VUndefined | Normal VNull => Normal None
  | Normal (VArr actions) =>
      match ToolView.some_tool name actions with
      | Normal b => Normal (Some b)
      | Throw => Throw
      end
  | Normal _ => Throw
  end.

Definition shouldBlurContent := uses_tool "blur_text_content".
Definition shouldMinimizeMedia := uses_tool "minimize_media_content".

End Raw.

(** The value a payload of the declared shape is at run time; an absent
    optional field is an absent property. *)
Definition js_of_result (r : AnalysisResult) : jsval :=
  VObj (match ar_sentiment r with Some s => [("sentiment", VStr s)] | None => [] end
        ++ match ar_author_important r with
           | Some b => [("author_important", VBool b)]
           | None => []
           end
        ++ match ar_moderation_actions r with
           | Some l => [("moderation_actions", VArr l)]
           | None => []
           end).

Definition js_of_entry (a : ReplyAnalysis) : jsval :=
  VObj (("reply_id", VStr (ra_reply_id a))
        :: match ra_analysis_result a with
           | Some r => [("analysis_result", js_of_result r)]
           | None => []
           end).

Definition js_of_results (results : option ReplyAnalyzerResults) : jsval :=
  match results with
  | None => VNull
  | Some r =>
      VObj match reply_analyses r with
           | Some l => [("reply_analyses", VArr (List.map js_of_entry l))]
           | None => []
           end
  end.

(** An element of a list the code walks can be read: it is not [null]
    or [undefined]. *)
Definition readable (v : jsval) : Prop := v ≠ VNull ∧ v ≠ VUndefined.

(** What the test for tool [name] returns on a list of actions
    ([Array.some]): true when an action with that name is listed and
    every element before it can be read; a TypeError when an element that
    cannot be read comes before any such action; false when every element
    can be read and none has the name. *)
Definition some_law (name : string) (actions : list jsval)
    (out : completion (option bool)) : Prop :=
  (out = Normal (Some true)
   ↔ ∃ before action behind,
       actions = before ++ action :: behind
       ∧ get_own action "tool_name" = VStr name ∧ readable action
       ∧ ∀ b, b ∈ before → readable b)
  ∧ (out = Throw
     ↔ ∃ before action behind,
         actions = before ++ action :: behind
         ∧ ¬ readable action
         ∧ ∀ b, b ∈ before → readable b ∧ get_own b "tool_name" ≠ VStr name)
  ∧ (out = Normal (Some false)
     ↔ ∀ b, b ∈ actions → readable b ∧ get_own b "tool_name" ≠ VStr name).

(** What a test of the earlier revision returns for a reply, by the
    shape of the payload. Without a (truthy) [reply_analyses] the result
    is [undefined]; a [reply_analyses] that is no array is a TypeError.
    In an array the first entry with the reply's id decides, and an entry
    that cannot be read before it is a TypeError; with no such entry, or
    when that entry has no (truthy) [moderation_actions], the result is
    [undefined]; [moderation_actions] that is no array is a TypeError;
    and on an array of actions the test follows [some_law]. *)
Definition tool_test_law (name : string)
    (test : jsval → string → completion (option bool)) : Prop :=
  ∀ (results : jsval) (replyId : string),
    let analyses := opt_get results "reply_analyses" in
    (truthy analyses = false → test results replyId = Normal None)
    ∧ (truthy analyses = true → (∀ entries, analyses ≠ VArr entries) →
       test results replyId = Throw)
    ∧ (∀ entries,
         analyses = VArr entries →
         ((∀ e, e ∈ entries → readable e ∧ get_own e "reply_id" ≠ VStr replyId) →
          test results replyId = Normal None)
         ∧ (∀ before e behind,
              entries = before ++ e :: behind →
              (∀ b, b ∈ before → readable b ∧ get_own b "reply_id" ≠ VStr replyId) →
              (¬ readable e → test results replyId = Throw)
              ∧ (readable e → get_own e "reply_id" = VStr replyId →
                 let actions :=
                   opt_get (opt_get e "analysis_result") "moderation_actions" in
                 (truthy actions = false → test results replyId = Normal None)
                 ∧ (truthy actions = true → (∀ l, actions ≠ VArr l) →
                    test results replyId = Throw)
                 ∧ (∀ l, actions = VArr l →
                      some_law name l (test results replyId))))).

(* ===================================================================== *)
(** ** More sample data *)
(* ===================================================================== *)

(** The key and the text of a recommendation the suggestions loop
    stores: both present and not empty. *)
Definition usable (action : Suggestions.Recommendation) : option (string * string) :=
  match Suggestions.rec_reply_id action, Suggestions.suggested_response action with
  | Some k, Some v =>
      if negb (String.eqb k "") && negb (String.eqb v "") then Some (k, v) else None
  | _, _ => None
  end.

(** The text of the last usable recommendation for [replyId]. *)
Fixpoint last_usable (steps : list Suggestions.Recommendation) (replyId : string)
  : option string :=
  match steps with
  | [] => None
  | action :: rest =>
      match last_usable rest replyId with
      | Some v => Some v
      | None =>
          match usable action with
          | Some (k, v) => if String.eqb k replyId then Some v else None
          | None => None
          end
      end
  end.

Module Fixture.

(** The payload list of scenario 1, and a fresh view after that payload
    was loaded and the preload effect ran. *)
Definition threeLabels : list ReplyAnalysis :=
  [Sample.labelled "r1" "harmful";
   Sample.labelled "r2" "unfriendly";
   Sample.labelled "r3" "friendly"].

Definition loaded : App.State :=
  App.preloadEffect Sample.clock0
    (App.setReplyAnalysisData (Sample.payload threeLabels) (App.initial None)).

Definition status (l : list (string * jsval)) : Snapshot.StatusResponse :=
  {| Snapshot.moderation_actions := Some (list_to_map l) |}.

(** A view whose Live map came from a snapshot that stores the bare word
    hide for r1, not an action object. *)
Definition bareWord : App.State :=
  Snapshot.loadInitialStatus (status [("r1", VStr "hide")]) (App.initial None).

Definition recommend (replyId text : string) : Suggestions.Recommendation :=
  {| Suggestions.rec_reply_id := Some replyId;
     Suggestions.responder := None;
     Suggestions.suggested_response := Some text |}.

Definition steps (l : list Suggestions.Recommendation) : Suggestions.NextStepsData :=
  {| Suggestions.next_step_analysis :=
       Some {| Suggestions.recommended_next_steps := Some l |} |}.

Definition post (postId : string) : Navigation.Post :=
  {| Navigation.post_id := postId; Navigation.post_type := Navigation.PText;
     Navigation.post_content := "a post"; Navigation.image_url := None;
     Navigation.post_author := Sample.alice;
     Navigation.post_timestamp := "2025-01-01T00:00:00.000Z";
     Navigation.reactions := None; Navigation.total_replies := None;
     Navigation.replies := [] |}.

(** The feed with two posts loaded. *)
Definition browsing : Navigation.State :=
  {| Navigation.data := Some [post "p1"; post "p2"];
     Navigation.currentView := Navigation.feed;
     Navigation.selectedPostId := None;
     Navigation.selectedPost := None |}.

(** An action of the earlier revision: a tool name and no
    [action_type]. *)
Definition toolAction (name : string) : jsval := VObj [("tool_name", VStr name)].

(** The view with nothing in its maps, whose analysis results list, for
    r1, a tool action first and a hide second. *)
Definition toolFirst : App.State :=
  App.initial
    (Some (Sample.results
             [Sample.withActions "r1" "harmful"
                [toolAction "blur_text_content";
                 js_of_action (Sample.pushed "r1" hide)]])).

(** An image reply with a caption. *)
Definition imageReply (replyId : string) : Reply :=
  {| id := replyId; type := KImage; content := "look"; media_url := Some "pic.png";
     author := Sample.alice; language := "en"; hidden := false |}.

(** A pushed action whose [action_type] is neither blur nor hide. *)
Definition flagAction (replyId : string) : jsval :=
  VObj [("reply_id", VStr replyId); ("action_type", VStr "flag")].

(** The reply box of r1 is open with a draft typed in. *)
Definition drafting : Suggestions.State :=
  {| Suggestions.nextStepsData := Some (steps [recommend "r2" "Thanks!"]);
     Suggestions.preloadedSuggestions := {[ "r2" := "Thanks!" ]};
     Suggestions.replyingToId := Some "r1";
     Suggestions.replyText := "my draft" |}.

(** A first attempt whose constructor threw, so a retry is pending, and
    then a [connect] by hand that is still in flight. *)
Definition retrying : Websocket.World nat :=
  Sample.after [Websocket.CallConnect false; Websocket.CallConnect true].

End Fixture.

(* ===================================================================== *)
(** * Properties *)
(* ===================================================================== *)

(** ** Values *)

Lemma truthy_object fields : truthy (VObj fields) = true.
Proof. reflexivity. Qed.

Lemma truthy_action (a : ModerationAction) : truthy (js_of_action a) = true.
Proof. reflexivity. Qed.

Lemma action_type_of_action (a : ModerationAction) :
  get_own (js_of_action a) "action_type" = VStr (action_type_str (action_type a)).
Proof. reflexivity. Qed.

Lemma reply_id_of_action (a : ModerationAction) :
  get_own (js_of_action a) "reply_id" = VStr (reply_id a).
Proof. reflexivity. Qed.

Lemma is_action_of_action (a : ModerationAction) : is_action (js_of_action a).
Proof. by exists a. Qed.

Lemma obj_get_defined fields p s : obj_get fields p = VStr s → obj_has fields p = true.
Proof.
  induction fields as [|[k v] rest IH]; simpl; [discriminate |].
  destruct (String.eqb k p); [done | exact IH].
Qed.

(** What reads as an action is an object with an [action_type]. *)
Lemma is_action_object v :
  is_action v → ∃ fields, v = VObj fields ∧ obj_has fields "action_type" = true.
Proof.
  intros (a & Hid & Hty & _).
  destruct v as [| | | | s | elems | fields]; try discriminate.
  exists fields. split; [reflexivity |]. by eapply obj_get_defined.
Qed.

Lemma strict_eq_str_true v s : strict_eq_str v s = true ↔ v = VStr s.
Proof.
  destruct v; simpl; try (split; [discriminate | intros [=]]).
  rewrite String.eqb_eq. split; [intros -> | intros [=]]; done.
Qed.

(** ** The resolver of the view *)

Section Resolver.
Import App.

Lemma map_get_some (m : gmap string jsval) k v : m !! k = Some v → map_get m k = v.
Proof. unfold map_get. by intros ->. Qed.

Lemma map_get_none (m : gmap string jsval) k : m !! k = None → map_get m k = VUndefined.
Proof. unfold map_get. by intros ->. Qed.

(** A truthy Live entry is what the resolver returns, whatever the other
    layers hold. *)
Lemma live_wins (st : State) replyId live :
  moderationActions st !! replyId = Some live →
  truthy live = true →
  getReplyModerationInfo st replyId = live.
Proof.
  intros Hlive Ht. unfold getReplyModerationInfo.
  rewrite (map_get_some _ _ _ Hlive), Ht. reflexivity.
Qed.

Lemma preloaded_wins (st : State) replyId pre :
  moderationActions st !! replyId = None →
  preloadedModerations st !! replyId = Some pre →
  truthy pre = true →
  getReplyModerationInfo st replyId = pre.
Proof.
  intros Hlive Hpre Ht. unfold getReplyModerationInfo.
  rewrite (map_get_none _ _ Hlive), (map_get_some _ _ _ Hpre), Ht. reflexivity.
Qed.

Lemma no_layer_falls_back (st : State) replyId :
  moderationActions st !! replyId = None →
  preloadedModerations st !! replyId = None →
  getReplyModerationInfo st replyId
  = fallbackModeration (replyAnalysisResults st) replyId.
Proof.
  intros Hlive Hpre. unfold getReplyModerationInfo.
  rewrite (map_get_none _ _ Hlive), (map_get_none _ _ Hpre). reflexivity.
Qed.

(** C1. When the Live map and the Preloaded map both hold an action for
    a reply, [getReplyModerationInfo] returns the Live one, whatever the
    Preloaded entry is; the display decision is then the Live action's
    [action_type]. *)
Theorem C1_live_overrides_preloaded
    (st : State) (replyId : string) (live pre : jsval) :
  moderationActions st !! replyId = Some live →
  is_action live →
  preloadedModerations st !! replyId = Some pre →
  getReplyModerationInfo st replyId = live
  ∧ shouldModerateContent st replyId = Normal (get_own live "action_type").
Proof.
  intros Hlive Hact _.
  destruct (is_action_object live Hact) as (fields & -> & Hhas).
  assert (H : getReplyModerationInfo st replyId = VObj fields)
    by (by apply live_wins).
  split; [exact H |].
  unfold shouldModerateContent. rewrite H. simpl. by rewrite Hhas.
Qed.

End Resolver.

(** The precedence of scenario 3: Live hide over Preloaded blur. *)
Lemma C1_live_overrides_preloaded_witness :
  App.getReplyModerationInfo Sample.bothLayers "r2"
  = js_of_action (Sample.pushed "r2" hide)
  ∧ App.shouldModerateContent Sample.bothLayers "r2" = Normal (VStr "hide").
Proof.
  apply (C1_live_overrides_preloaded Sample.bothLayers "r2"
           (js_of_action (Sample.pushed "r2" hide))
           (js_of_action (App.preloaded_action "t0" "r2" unfriendly)));
    [reflexivity | apply is_action_of_action | reflexivity].
Defined.

(** ** The static hidden flag *)

(** The view never reads [reply.hidden]: two replies with one id are
    shown alike. *)
Lemma app_view_ignores_hidden (st : App.State) (r r' : Reply) :
  id r = id r' → App.renderContent st r = App.renderContent st r'.
Proof. unfold App.renderContent. by intros ->. Qed.

Lemma reply_hidden_renders_notice (reply : Reply) data (st : ReplyComponent.State) :
  hidden reply = true →
  ∃ label reasonLine,
    ReplyComponent.render reply data st = ReplyComponent.HiddenNotice label reasonLine.
Proof.
  intros Hh. unfold ReplyComponent.render. rewrite Hh. simpl. eauto.
Qed.

(** C2, as stated, fails in the view: a reply whose static data says
    [hidden: true], with nothing in the Live and Preloaded maps and no
    analysis results, resolves to no moderation and is shown in full. *)
Lemma C2_view_shows_hidden_reply :
  hidden (Sample.textReply "r1" true) = true
  ∧ App.shouldModerateContent (App.initial None) "r1" = Normal VNull
  ∧ App.renderContent (App.initial None) (Sample.textReply "r1" true)
    = Normal App.ContentPlain.
Proof. repeat split. Qed.

(** C2, amended. In the [Reply] component a reply flagged [hidden]
    renders as the hidden notice whatever the stored live action, the
    analysis data and the revealed flags are, and a Live blur does not
    change that; the view of App.tsx decides from the reply's id alone and
    does not read the flag. *)
Theorem C2_hidden_flag_in_reply_component :
  (∀ (reply : Reply) data (st : ReplyComponent.State),
     hidden reply = true →
     ∃ label reasonLine,
       ReplyComponent.render reply data st
       = ReplyComponent.HiddenNotice label reasonLine)
  ∧ (∀ (st : App.State) (r r' : Reply),
       id r = id r' → App.renderContent st r = App.renderContent st r').
Proof.
  split.
  - apply reply_hidden_renders_notice.
  - apply app_view_ignores_hidden.
Qed.

(** A hidden reply with a stored Live blur, already revealed by the
    user, still renders as the notice. *)
Lemma C2_hidden_flag_in_reply_component_witness :
  ∃ label reasonLine,
    ReplyComponent.render (Sample.textReply "r1" true) None
      {| ReplyComponent.moderationAction := js_of_action (Sample.pushed "r1" blur);
         ReplyComponent.isContentRevealed := true;
         ReplyComponent.isMediaRevealed := true |}
    = ReplyComponent.HiddenNotice label reasonLine.
Proof.
  apply (proj1 C2_hidden_flag_in_reply_component (Sample.textReply "r1" true) None).
  reflexivity.
Defined.

(** ** Defaults from the sentiment label *)

Lemma find_analysis_relabel f analyses replyId :
  find_analysis (List.map (relabel_entry f) analyses) replyId
  = option_map (relabel_entry f) (find_analysis analyses replyId).
Proof.
  unfold find_analysis.
  induction analyses as [|a rest IH]; simpl; [reflexivity |].
  destruct (String.eqb (ra_reply_id a) replyId); [reflexivity | exact IH].
Qed.

(** The last step of the view's resolver reads the entry's
    [moderation_actions] and never its sentiment label. *)
Lemma fallback_relabel f results replyId :
  App.fallbackModeration (option_map (relabel f) results) replyId
  = App.fallbackModeration results replyId.
Proof.
  destruct results as [[[analyses|]]|]; simpl; try reflexivity.
  rewrite find_analysis_relabel.
  destruct (find_analysis analyses replyId) as [[rid [res|]]|]; reflexivity.
Qed.

Lemma sentimentDefault_cases (s : string) :
  (s = "harmful" → ReplyComponent.sentimentDefault s = VStr "hide")
  ∧ (s = "unfriendly" → ReplyComponent.sentimentDefault s = VStr "blur")
  ∧ (s ≠ "harmful" → s ≠ "unfriendly" → ReplyComponent.sentimentDefault s = VNull).
Proof.
  unfold ReplyComponent.sentimentDefault. repeat split.
  - by intros ->.
  - by intros ->.
  - intros H1 H2.
    destruct (String.eqb_spec s "harmful"); [done |].
    destruct (String.eqb_spec s "unfriendly"); done.
Qed.

Lemma moderationType_no_action (st : ReplyComponent.State) (s : string) :
  ReplyComponent.moderationAction st = VNull →
  ReplyComponent.moderationType st s = ReplyComponent.sentimentDefault s.
Proof. unfold ReplyComponent.moderationType. by intros ->. Qed.

(** A label that is missing at any level reads as ['unknown']. *)
Lemma getReplySentiment_absent data replyId :
  (data_analyses data = None
   ∨ (∃ analyses, data_analyses data = Some analyses
        ∧ (find_analysis analyses replyId = None
           ∨ ∃ a, find_analysis analyses replyId = Some a
                  ∧ (entry_sentiment a = None ∨ entry_sentiment a = Some "")))) →
  ReplyComponent.getReplySentiment data replyId = "unknown".
Proof.
  unfold ReplyComponent.getReplySentiment.
  intros [-> | (analyses & -> & [-> | (a & -> & [-> | ->])])]; reflexivity.
Qed.

(** C3, as stated, fails in the view, the only resolver with a Preloaded
    layer: a reply labelled harmful with no Live and no Preloaded entry
    resolves to no moderation, both when the label sits in the parent's
    analysis results and when it sits in the fetched payload; and a reply
    labelled friendly resolves to a blur when the analysis results list
    one for it. *)
Lemma C3_view_does_not_map_sentiment :
  (App.moderationActions Sample.labelOnly !! "r1" = None
   ∧ App.preloadedModerations Sample.labelOnly !! "r1" = None
   ∧ App.replyAnalysisResults Sample.labelOnly
     = Some (Sample.results [Sample.labelled "r1" "harmful"])
   ∧ App.getReplyModerationInfo Sample.labelOnly "r1" = VNull
   ∧ App.shouldModerateContent Sample.labelOnly "r1" = Normal VNull)
  ∧ (App.moderationActions Sample.beforePreload !! "r1" = None
     ∧ App.preloadedModerations Sample.beforePreload !! "r1" = None
     ∧ App.getReplySentiment Sample.beforePreload "r1" = Some "harmful"
     ∧ App.getReplyModerationInfo Sample.beforePreload "r1" = VNull
     ∧ App.shouldModerateContent Sample.beforePreload "r1" = Normal VNull)
  ∧ (App.moderationActions Sample.settledFriendly !! "r3" = None
     ∧ App.preloadedModerations Sample.settledFriendly !! "r3" = None
     ∧ App.getReplySentiment Sample.settledFriendly "r3" = Some "friendly"
     ∧ App.shouldModerateContent Sample.settledFriendly "r3" = Normal (VStr "blur")).
Proof. repeat split. Qed.

(** [find] returns the first entry with the reply's id. *)
Lemma find_analysis_first before a behind replyId :
  ra_reply_id a = replyId →
  (∀ b, b ∈ before → ra_reply_id b ≠ replyId) →
  find_analysis (before ++ a :: behind) replyId = Some a.
Proof.
  intros Hid. unfold find_analysis.
  induction before as [|b before IH]; simpl; intros Hbefore.
  - by rewrite Hid, String.eqb_refl.
  - destruct (String.eqb_spec (ra_reply_id b) replyId) as [Heq|_].
    + exfalso. apply (Hbefore b); [apply elem_of_cons; by left | done].
    + apply IH. intros b' Hb'. apply Hbefore, elem_of_cons. by right.
Qed.

Lemma find_analysis_none analyses replyId :
  (∀ b, b ∈ analyses → ra_reply_id b ≠ replyId) →
  find_analysis analyses replyId = None.
Proof.
  unfold find_analysis. induction analyses as [|b rest IH]; simpl; intros Hall; [done |].
  destruct (String.eqb_spec (ra_reply_id b) replyId) as [Heq|_].
  - exfalso. apply (Hall b); [apply elem_of_cons; by left | done].
  - apply IH. intros b' Hb'. apply Hall, elem_of_cons. by right.
Qed.

(** C3, amended. In the [Reply] component, with no live action stored,
    the moderation type follows the label found for the reply in the
    analysis data: harmful gives hide, unfriendly gives blur, any other
    label gives none. The label found is the one of the first entry with
    the reply's id; when the payload or its list is missing, when no entry
    has the id, or when that entry's label is missing or empty, it reads
    as unknown. In the view of App.tsx a reply with no Live and no
    Preloaded entry resolves to the first element of the
    [moderation_actions] of the first entry with its id in the parent's
    analysis results, and to none when the results, the list, the entry,
    its result or its actions are missing or the actions are empty; that
    step does not read the sentiment labels. *)
Theorem C3_default_from_sentiment :
  (∀ (st : ReplyComponent.State) (data : option AnalysisData) (replyId : string),
     ReplyComponent.moderationAction st = VNull →
     let s := ReplyComponent.getReplySentiment data replyId in
     (s = "harmful" → ReplyComponent.moderationType st s = VStr "hide")
     ∧ (s = "unfriendly" → ReplyComponent.moderationType st s = VStr "blur")
     ∧ (s ≠ "harmful" → s ≠ "unfriendly" → ReplyComponent.moderationType st s = VNull)
     ∧ (data_analyses data = None → s = "unknown")
     ∧ (∀ analyses,
          data_analyses data = Some analyses →
          ((∀ b, b ∈ analyses → ra_reply_id b ≠ replyId) → s = "unknown")
          ∧ (∀ before a behind,
               analyses = before ++ a :: behind →
               ra_reply_id a = replyId →
               (∀ b, b ∈ before → ra_reply_id b ≠ replyId) →
               (entry_sentiment a = None ∨ entry_sentiment a = Some "" → s = "unknown")
               ∧ (∀ label, entry_sentiment a = Some label → label ≠ "" → s = label))))
  ∧ (∀ (st : App.State) (replyId : string),
       App.moderationActions st !! replyId = None →
       App.preloadedModerations st !! replyId = None →
       (∀ f, App.getReplyModerationInfo st replyId
             = App.fallbackModeration
                 (option_map (relabel f) (App.replyAnalysisResults st)) replyId)
       ∧ (App.replyAnalysisResults st = None →
          App.getReplyModerationInfo st replyId = VNull)
       ∧ (∀ r,
            App.replyAnalysisResults st = Some r →
            (reply_analyses r = None → App.getReplyModerationInfo st replyId = VNull)
            ∧ (∀ analyses,
                 reply_analyses r = Some analyses →
                 ((∀ b, b ∈ analyses → ra_reply_id b ≠ replyId) →
                  App.getReplyModerationInfo st replyId = VNull)
                 ∧ (∀ before a behind,
                      analyses = before ++ a :: behind →
                      ra_reply_id a = replyId →
                      (∀ b, b ∈ before → ra_reply_id b ≠ replyId) →
                      (∀ res first rest,
                         ra_analysis_result a = Some res →
                         ar_moderation_actions res = Some (first :: rest) →
                         App.getReplyModerationInfo st replyId = first)
                      ∧ (ra_analysis_result a = None
                         ∨ (∃ res, ra_analysis_result a = Some res
                                   ∧ (ar_moderation_actions res = None
                                      ∨ ar_moderation_actions res = Some [])) →
                         App.getReplyModerationInfo st replyId = VNull))))).
Proof.
  split.
  - intros st data replyId Hnone s.
    rewrite (moderationType_no_action st s Hnone).
    destruct (sentimentDefault_cases s) as (Hh & Hu & Ho).
    split; [exact Hh |]. split; [exact Hu |]. split; [exact Ho |].
    subst s. unfold ReplyComponent.getReplySentiment.
    split; [by intros -> |].
    intros analyses ->. split.
    + intros Hall. by rewrite find_analysis_none.
    + intros before a behind -> Hid Hbefore.
      rewrite find_analysis_first by done. split.
      * by intros [-> | ->].
      * intros label -> Hne. by destruct (String.eqb_spec label "").
  - intros st replyId Hlive Hpre.
    split; [intros f; rewrite fallback_relabel; by apply no_layer_falls_back |].
    rewrite (no_layer_falls_back st replyId Hlive Hpre).
    unfold App.fallbackModeration.
    split; [by intros -> |].
    intros r ->. split; [by intros -> |].
    intros analyses ->. split.
    + intros Hall. by rewrite find_analysis_none.
    + intros before a behind -> Hid Hbefore.
      rewrite find_analysis_first by done. split.
      * by intros res first rest -> ->.
      * by intros [-> | (res & -> & [-> | ->])].
Qed.

(** Scenario 1 in the component: label harmful, no live action. *)
Lemma C3_default_from_sentiment_witness :
  ReplyComponent.moderationType ReplyComponent.initial
    (ReplyComponent.getReplySentiment
       (Some (Sample.payload [Sample.labelled "r1" "harmful"])) "r1")
  = VStr "hide"
  ∧ ReplyComponent.getReplySentiment None "r1" = "unknown".
Proof.
  split.
  - destruct (proj1 C3_default_from_sentiment ReplyComponent.initial
                (Some (Sample.payload [Sample.labelled "r1" "harmful"])) "r1" eq_refl)
      as (Hh & _).
    apply Hh. reflexivity.
  - destruct (proj1 C3_default_from_sentiment ReplyComponent.initial None "r1" eq_refl)
      as (_ & _ & _ & Hmissing & _).
    apply Hmissing. reflexivity.
Defined.

(** ** The Preloaded map *)

Section Preload.
Import App.

Lemma flagged_harmful o : flagged o = Some harmful ↔ o = Some "harmful".
Proof.
  unfold flagged. destruct o as [s|]; [| split; discriminate].
  destruct (String.eqb_spec s "harmful") as [->|Hh]; [done |].
  destruct (String.eqb_spec s "unfriendly") as [->|Hu].
  - split; [discriminate | intros [=]].
  - split; [discriminate | intros [=]; done].
Qed.

Lemma flagged_unfriendly o : flagged o = Some unfriendly ↔ o = Some "unfriendly".
Proof.
  unfold flagged. destruct o as [s|]; [| split; discriminate].
  destruct (String.eqb_spec s "harmful") as [->|Hh].
  - split; [discriminate | intros [=]].
  - destruct (String.eqb_spec s "unfriendly") as [->|Hu]; [done |].
    split; [discriminate | intros [=]; done].
Qed.

Lemma flagged_some o :
  is_Some (flagged o) ↔ o = Some "harmful" ∨ o = Some "unfriendly".
Proof.
  split.
  - intros [[|] H]; [left; by apply flagged_harmful | right; by apply flagged_unfriendly].
  - intros [-> | ->]; eexists; reflexivity.
Qed.

Lemma preload_from_lookup clock analyses :
  ∀ i (m : gmap string jsval) replyId,
    preload_from clock i m analyses !! replyId
    = match last_flagged i analyses replyId with
      | Some (j, s) => Some (js_of_action (preloaded_action (clock j) replyId s))
      | None => m !! replyId
      end.
Proof.
  induction analyses as [|a rest IH]; intros i m replyId; simpl; [reflexivity |].
  rewrite IH. destruct (last_flagged (S i) rest replyId) as [[j s]|]; [reflexivity |].
  unfold preload_entry.
  destruct (String.eqb_spec (ra_reply_id a) replyId) as [->|Hne];
    destruct (flagged (entry_sentiment a)) as [s|]; simpl; try reflexivity.
  - by rewrite lookup_insert_eq.
  - by rewrite lookup_insert_ne.
Qed.

Lemma last_flagged_some analyses :
  ∀ i replyId,
    is_Some (last_flagged i analyses replyId)
    ↔ ∃ a, a ∈ analyses ∧ ra_reply_id a = replyId
           ∧ is_Some (flagged (entry_sentiment a)).
Proof.
  induction analyses as [|a rest IH]; intros i replyId; simpl.
  - split; [intros [? [=]] | intros (a & Ha & _); by apply elem_of_nil in Ha].
  - destruct (last_flagged (S i) rest replyId) as [r|] eqn:Hrest.
    + split; [intros _ | eauto].
      destruct (proj1 (IH (S i) replyId)) as (b & Hb & Hid & Hf); [by rewrite Hrest |].
      exists b. split; [apply elem_of_cons; by right | done].
    + split.
      * destruct (String.eqb_spec (ra_reply_id a) replyId) as [Heq|Hne];
          [| intros [? [=]]].
        destruct (flagged (entry_sentiment a)) as [s|] eqn:Hf; [| intros [? [=]]].
        intros _. exists a. rewrite Hf. split; [apply elem_of_cons; by left | eauto].
      * intros (b & Hb & Hid & Hf). apply elem_of_cons in Hb as [-> | Hb].
        -- rewrite <- Hid, String.eqb_refl. destruct Hf as [s ->]. simpl. eauto.
        -- exfalso. assert (is_Some (last_flagged (S i) rest replyId)) as [? Hs]
             by (apply IH; eauto).
           congruence.
Qed.

(** With one entry per reply id, a flagged entry is the last flagged one
    for its id. *)
Lemma last_flagged_unique analyses :
  ∀ i a s,
    NoDup (List.map ra_reply_id analyses) →
    a ∈ analyses →
    flagged (entry_sentiment a) = Some s →
    ∃ j, last_flagged i analyses (ra_reply_id a) = Some (j, s).
Proof.
  induction analyses as [|b rest IH]; intros i a s Hnd Ha Hf; simpl.
  - by apply elem_of_nil in Ha.
  - apply NoDup_cons in Hnd as [Hnotin Hnd].
    apply elem_of_cons in Ha as [-> | Ha].
    + destruct (last_flagged (S i) rest (ra_reply_id b)) as [r|] eqn:Hrest.
      * exfalso. apply Hnotin.
        destruct (proj1 (last_flagged_some rest (S i) (ra_reply_id b)))
          as (c & Hc & Hid & _); [by rewrite Hrest |].
        rewrite <- Hid. apply list_elem_of_fmap. eauto.
      * rewrite String.eqb_refl, Hf. simpl. eauto.
    + destruct (IH (S i) a s Hnd Ha Hf) as [j ->]. eauto.
Qed.

(** The map the loop of the preload effect builds from a list of
    entries. *)
Lemma buildPreloaded_mapping (clock : nat → string) (analyses : list ReplyAnalysis) :
  let pre := buildPreloaded clock analyses in
  (∀ replyId,
     is_Some (pre !! replyId)
     ↔ ∃ a, a ∈ analyses ∧ ra_reply_id a = replyId
            ∧ (entry_sentiment a = Some "harmful"
               ∨ entry_sentiment a = Some "unfriendly"))
  ∧ (∀ replyId v,
       pre !! replyId = Some v →
       ∃ act, v = js_of_action act ∧ reply_id act = replyId
              ∧ ((sentiment act = harmful ∧ action_type act = hide)
                 ∨ (sentiment act = unfriendly ∧ action_type act = blur)))
  ∧ (NoDup (List.map ra_reply_id analyses) →
     ∀ a, a ∈ analyses →
       (entry_sentiment a = Some "harmful" →
        ∃ act, pre !! ra_reply_id a = Some (js_of_action act)
               ∧ action_type act = hide ∧ sentiment act = harmful)
       ∧ (entry_sentiment a = Some "unfriendly" →
          ∃ act, pre !! ra_reply_id a = Some (js_of_action act)
                 ∧ action_type act = blur ∧ sentiment act = unfriendly)).
Proof.
  intros pre. subst pre. unfold buildPreloaded. repeat split.
  - rewrite preload_from_lookup. intros Hsome.
    destruct (last_flagged 0 analyses replyId) as [[j s]|] eqn:Hl;
      [| rewrite lookup_empty in Hsome; by destruct Hsome].
    destruct (proj1 (last_flagged_some analyses 0 replyId)) as (a & Ha & Hid & Hf);
      [by rewrite Hl |].
    exists a. by rewrite <- flagged_some.
  - intros (a & Ha & Hid & Hf). rewrite preload_from_lookup.
    assert (is_Some (last_flagged 0 analyses replyId)) as [[j s] ->]
      by (apply last_flagged_some; exists a; by rewrite flagged_some).
    eauto.
  - intros replyId v. rewrite preload_from_lookup.
    destruct (last_flagged 0 analyses replyId) as [[j s]|];
      [| by rewrite lookup_empty].
    intros [= <-]. exists (preloaded_action (clock j) replyId s).
    repeat split. destruct s; [left | right]; done.
  - intros Hf. apply flagged_harmful in Hf.
    destruct (last_flagged_unique analyses 0 a harmful) as [j Hj]; [done..|].
    exists (preloaded_action (clock j) (ra_reply_id a) harmful).
    by rewrite preload_from_lookup, Hj.
  - intros Hf. apply flagged_unfriendly in Hf.
    destruct (last_flagged_unique analyses 0 a unfriendly) as [j Hj]; [done..|].
    exists (preloaded_action (clock j) (ra_reply_id a) unfriendly).
    by rewrite preload_from_lookup, Hj.
Qed.

(** The effect on a view whose payload has the list: only the Preloaded
    map changes, and it becomes the map built from the list. *)
Lemma preloadEffect_loaded clock (st : State) (data : AnalysisData) analyses :
  data_analyses (Some data) = Some analyses →
  preloadEffect clock (setReplyAnalysisData data st)
  = {| moderationActions := moderationActions st;
       preloadedModerations := buildPreloaded clock analyses;
       replyAnalysisData := Some data;
       replyAnalysisResults := replyAnalysisResults st |}.
Proof. unfold preloadEffect, setReplyAnalysisData. simpl. by intros ->. Qed.

(** A payload without the list leaves the Preloaded map as it was. *)
Lemma preloadEffect_no_list clock (st : State) :
  data_analyses (replyAnalysisData st) = None → preloadEffect clock st = st.
Proof. unfold preloadEffect. by intros ->. Qed.

(** C4. Once the batch payload is loaded and the preload effect has run,
    the Preloaded map of the view has a reply id as a key exactly when an
    entry of the payload for that id is labelled harmful or unfriendly;
    every value is a full action for its key, hide for harmful and blur
    for unfriendly (there is no entry for any other label, and no empty
    entry); with one entry per reply id, each harmful entry maps to a
    hide and each unfriendly entry to a blur, and that is what the view
    decides for the reply while no Live entry stands before it. The Live
    map is not touched. *)
Theorem C4_preloaded_mapping
    (clock : nat → string) (st : State) (data : AnalysisData)
    (analyses : list ReplyAnalysis) :
  data_analyses (Some data) = Some analyses →
  let st' := preloadEffect clock (setReplyAnalysisData data st) in
  let pre := preloadedModerations st' in
  (∀ replyId,
     is_Some (pre !! replyId)
     ↔ ∃ a, a ∈ analyses ∧ ra_reply_id a = replyId
            ∧ (entry_sentiment a = Some "harmful"
               ∨ entry_sentiment a = Some "unfriendly"))
  ∧ (∀ replyId v,
       pre !! replyId = Some v →
       ∃ act, v = js_of_action act ∧ reply_id act = replyId
              ∧ ((sentiment act = harmful ∧ action_type act = hide)
                 ∨ (sentiment act = unfriendly ∧ action_type act = blur)))
  ∧ (NoDup (List.map ra_reply_id analyses) →
     ∀ a, a ∈ analyses →
       (entry_sentiment a = Some "harmful" →
        (∃ act, pre !! ra_reply_id a = Some (js_of_action act)
                ∧ action_type act = hide ∧ sentiment act = harmful)
        ∧ (moderationActions st !! ra_reply_id a = None →
           shouldModerateContent st' (ra_reply_id a) = Normal (VStr "hide")))
       ∧ (entry_sentiment a = Some "unfriendly" →
          (∃ act, pre !! ra_reply_id a = Some (js_of_action act)
                  ∧ action_type act = blur ∧ sentiment act = unfriendly)
          ∧ (moderationActions st !! ra_reply_id a = None →
             shouldModerateContent st' (ra_reply_id a) = Normal (VStr "blur"))))
  ∧ moderationActions st' = moderationActions st.
Proof.
  intros Hlist st' pre. subst pre st'.
  rewrite (preloadEffect_loaded clock st data analyses Hlist). simpl.
  destruct (buildPreloaded_mapping clock analyses) as (Hkeys & Hvals & Heach).
  split; [exact Hkeys |]. split; [exact Hvals |]. split; [| reflexivity].
  intros Hnd a Ha. destruct (Heach Hnd a Ha) as [Hh Hu].
  assert (Hdecide : ∀ act,
            buildPreloaded clock analyses !! ra_reply_id a = Some (js_of_action act) →
            moderationActions st !! ra_reply_id a = None →
            shouldModerateContent
              {| moderationActions := moderationActions st;
                 preloadedModerations := buildPreloaded clock analyses;
                 replyAnalysisData := Some data;
                 replyAnalysisResults := replyAnalysisResults st |} (ra_reply_id a)
            = Normal (VStr (action_type_str (action_type act)))).
  { intros act Hpre Hlive. unfold shouldModerateContent.
    rewrite (preloaded_wins _ (ra_reply_id a) (js_of_action act)); done. }
  split.
  - intros Hs. destruct (Hh Hs) as (act & Hpre & Hty & Hse).
    split; [by exists act |]. intros Hlive.
    rewrite (Hdecide act Hpre Hlive), Hty. reflexivity.
  - intros Hs. destruct (Hu Hs) as (act & Hpre & Hty & Hse).
    split; [by exists act |]. intros Hlive.
    rewrite (Hdecide act Hpre Hlive), Hty. reflexivity.
Qed.

End Preload.

(** The payload of scenario 1 loaded into a fresh view: r1 (harmful) and
    r2 (unfriendly) are keys of the Preloaded map, r3 (friendly) is
    not. *)
Lemma C4_preloaded_mapping_witness :
  is_Some (App.preloadedModerations Fixture.loaded !! "r1")
  ∧ is_Some (App.preloadedModerations Fixture.loaded !! "r2")
  ∧ ¬ is_Some (App.preloadedModerations Fixture.loaded !! "r3")
  ∧ App.shouldModerateContent Fixture.loaded "r1" = Normal (VStr "hide")
  ∧ App.shouldModerateContent Fixture.loaded "r2" = Normal (VStr "blur").
Proof.
  destruct (C4_preloaded_mapping Sample.clock0 (App.initial None)
              (Sample.payload Fixture.threeLabels) Fixture.threeLabels eq_refl)
    as (Hkeys & _ & Heach & _).
  assert (Hnd : NoDup (List.map ra_reply_id Fixture.threeLabels))
    by (apply (bool_decide_unpack _); vm_compute; exact I).
  split; [| split; [| split; [| split]]].
  - apply Hkeys. exists (Sample.labelled "r1" "harmful").
    split; [apply elem_of_cons; by left | split; [reflexivity | by left]].
  - apply Hkeys. exists (Sample.labelled "r2" "unfriendly").
    split; [apply elem_of_cons; right; apply elem_of_cons; by left
           | split; [reflexivity | by right]].
  - intros Hsome. apply Hkeys in Hsome as (a & Ha & Hid & Hs).
    apply elem_of_cons in Ha as [-> | Ha]; [discriminate Hid |].
    apply elem_of_cons in Ha as [-> | Ha]; [discriminate Hid |].
    apply elem_of_cons in Ha as [-> | Ha]; [| by apply elem_of_nil in Ha].
    destruct Hs as [Hs | Hs]; discriminate Hs.
  - apply (proj2 (proj1 (Heach Hnd (Sample.labelled "r1" "harmful")
                           ltac:(apply elem_of_cons; by left)) eq_refl)).
    reflexivity.
  - apply (proj2 (proj2 (Heach Hnd (Sample.labelled "r2" "unfriendly")
                           ltac:(apply elem_of_cons; right; apply elem_of_cons; by left))
                    eq_refl)).
    reflexivity.
Defined.

(** ** The push channel *)

Section ChannelFacts.
Import Websocket Channel.
Context {W : Type}.
Implicit Types (w : World W) (data : jsval).

Ltac js := cbv [connect disconnect scheduleReconnect clearReconnectTimer
                 ws_onopen ws_onerror ws_onclose subscribe unsubscribe send
                 notifyListeners ws_onmessage
                 bind ret try_catch gets modify lift
                 set_ws set_reconnectTimer set_listeners set_isConnecting
                 new_WebSocket setTimeout clearTimeout ws_send
                 with_svc with_env run].

Lemma forEach_delivers (ls : list (string * callback W)) data :
  ∀ w, forEach ls (fun k cb => try_catch (call k cb data) (ret tt)) w
       = (delivered ls data w, Normal tt).
Proof.
  induction ls as [|[k cb] rest IH]; intros w.
  - unfold delivered. simpl. rewrite app_nil_r. by destruct w.
  - simpl. cbv [bind try_catch call ret].
    destruct (cb data (app w)) as [a c] eqn:Hcb.
    assert (Hnext : ∀ w1 : World W,
              w1 = {| svc := svc w; env := env w; app := a;
                      calls := calls w ++ [(k, data)] |} →
              forEach rest (fun k cb => try_catch (call k cb data) (ret tt)) w1
              = (delivered ((k, cb) :: rest) data w, Normal tt)).
    { intros w1 ->. rewrite IH. unfold delivered. simpl.
      rewrite Hcb. simpl. by rewrite <- app_assoc. }
    destruct c; by apply Hnext.
Qed.

Lemma notifyListeners_delivers data w :
  notifyListeners data w = (delivered (listeners (svc w)) data w, Normal tt).
Proof. unfold notifyListeners. cbv [bind gets]. apply forEach_delivers. Qed.

(** Without the [try]/[catch] around each call the loop would end at the
    first callback that throws. *)
Lemma forEach_unprotected_stops (k : string) (cb : callback W) rest data w :
  snd (cb data (app w)) = Throw →
  forEach ((k, cb) :: rest) (fun k cb => call k cb data) w
  = (delivered [(k, cb)] data w, Throw).
Proof.
  intros Hthrow. simpl. cbv [bind call]. unfold delivered. simpl.
  destruct (cb data (app w)) as [a c]. simpl in *. by subst c.
Qed.

Lemma times_called_delivered (ls : list (string * callback W)) data k :
  times_called k (List.map (fun p => (fst p, data)) ls)
  = length (List.filter (fun p => String.eqb (fst p) k) ls).
Proof.
  unfold times_called. induction ls as [|[k' cb] rest IH]; simpl; [reflexivity |].
  destruct (String.eqb k' k); simpl; by rewrite IH.
Qed.

Lemma filter_key_absent (ls : list (string * callback W)) k :
  k ∉ List.map fst ls → List.filter (fun p => String.eqb (fst p) k) ls = [].
Proof.
  induction ls as [|[k' cb] rest IH]; simpl; [done |].
  intros Hnotin. apply not_elem_of_cons in Hnotin as [Hne Hrest].
  destruct (String.eqb_spec k' k); [congruence | by apply IH].
Qed.

Lemma unique_key_once (ls : list (string * callback W)) k cb :
  NoDup (List.map fst ls) → (k, cb) ∈ ls →
  length (List.filter (fun p => String.eqb (fst p) k) ls) = 1.
Proof.
  induction ls as [|[k' cb'] rest IH]; simpl; intros Hnd Hin.
  - by apply elem_of_nil in Hin.
  - apply NoDup_cons in Hnd as [Hnotin Hnd].
    apply elem_of_cons in Hin as [[= <- <-] | Hin].
    + rewrite String.eqb_refl. simpl. by rewrite filter_key_absent.
    + destruct (String.eqb_spec k' k) as [->|Hne]; [| by apply IH].
      exfalso. apply Hnotin. apply list_elem_of_fmap. by exists (k, cb).
Qed.

(** C6. A dispatch calls every registered callback exactly once with the
    update, whichever of them throw, completes normally, and leaves the
    fields of the service and the browser's sockets and timers as they
    were. The subscribers' state afterwards is the one reached by running
    every callback on it, in registration order, each on what the one
    before left, whether that one returned or threw: a callback that
    throws stops none of those behind it. *)
Theorem C6_isolated_listener_failure data w :
  NoDup (List.map fst (listeners (svc w))) →
  ∃ w' log,
    notifyListeners data w = (w', Normal tt)
    ∧ svc w' = svc w ∧ env w' = env w
    ∧ app w' = fold_left (fun a p => fst (snd p data a)) (listeners (svc w)) (app w)
    ∧ (∀ before k cb behind,
         listeners (svc w) = before ++ (k, cb) :: behind →
         let a := fold_left (fun a p => fst (snd p data a)) before (app w) in
         snd (cb data a) = Throw →
         app w' = fold_left (fun a p => fst (snd p data a)) behind (fst (cb data a)))
    ∧ calls w' = calls w ++ log
    ∧ (∀ k arg, (k, arg) ∈ log → arg = data)
    ∧ (∀ k cb, (k, cb) ∈ listeners (svc w) → times_called k log = 1).
Proof.
  intros Hnd.
  exists (delivered (listeners (svc w)) data w),
         (List.map (fun p => (fst p, data)) (listeners (svc w))).
  split; [apply notifyListeners_delivers |].
  split; [reflexivity |]. split; [reflexivity |]. split; [reflexivity |].
  split.
  { intros before k cb behind Heq a _. simpl. rewrite Heq, fold_left_app. reflexivity. }
  repeat split.
  - intros k arg Hin. apply list_elem_of_fmap in Hin as (p & [= _ ->] & _). done.
  - intros k cb Hin. rewrite times_called_delivered. by eapply unique_key_once.
Qed.

(** *** The reconnect timer *)

Lemma clearReconnectTimer_spec w :
  timer_inv w → clearReconnectTimer w = (cleared w, Normal tt).
Proof.
  destruct w as [[sock ri rt ls ic] [socks tm nt snt] a cl].
  unfold timer_inv, cleared. simpl.
  intros [-> [-> | (t & -> & ->)]]; js; simpl.
  - destruct rt; reflexivity.
  - by rewrite Nat.eqb_refl.
Qed.

Lemma scheduleReconnect_spec w :
  timer_inv w → scheduleReconnect w = (scheduled w, Normal tt).
Proof.
  intros Hinv. unfold scheduleReconnect. cbv [bind].
  rewrite (clearReconnectTimer_spec w Hinv).
  destruct Hinv as [Hri _]. js. unfold scheduled, cleared. simpl.
  by rewrite Hri.
Qed.

Lemma timer_inv_cleared w : timer_inv w → timer_inv (cleared w).
Proof. intros [Hri _]. split; [exact Hri | by left]. Qed.

Lemma timer_inv_scheduled w : timer_inv w → timer_inv (scheduled w).
Proof. intros [Hri _]. split; [exact Hri | right; by eexists]. Qed.

Lemma scheduled_one_pending w : one_reconnect_pending (scheduled w).
Proof. by eexists. Qed.

(** The invariant only reads the interval, the remembered timer and the
    pending timeouts. *)
Lemma timer_inv_frame w w' :
  reconnectInterval (svc w') = reconnectInterval (svc w) →
  reconnectTimer (svc w') = reconnectTimer (svc w) →
  timers (env w') = timers (env w) →
  timer_inv w → timer_inv w'.
Proof. unfold timer_inv. intros -> -> ->. done. Qed.

Lemma one_pending_frame w w' :
  reconnectTimer (svc w') = reconnectTimer (svc w) →
  timers (env w') = timers (env w) →
  one_reconnect_pending w → one_reconnect_pending w'.
Proof. unfold one_reconnect_pending. intros -> ->. done. Qed.

Lemma timer_inv_init (a : W) : timer_inv (init a).
Proof. split; [reflexivity | by left]. Qed.

Lemma timer_inv_set_isConnecting b w :
  timer_inv w → timer_inv (fst (set_isConnecting b w)).
Proof. by apply timer_inv_frame. Qed.

Lemma timer_inv_set_readyState s r w :
  timer_inv w → timer_inv (set_readyState s r w).
Proof. by apply timer_inv_frame. Qed.

Lemma timer_inv_take_timer t w :
  timer_inv w → timer_pending t w = true → timer_inv (take_timer t w).
Proof.
  unfold timer_inv, timer_pending, take_timer. simpl.
  intros [Hri [Hnil | (t' & Ht & Hrt)]] Hpend; (split; [exact Hri |]); left.
  - by rewrite Hnil.
  - rewrite Ht in *. simpl in *. by destruct (Nat.eqb t' t).
Qed.

Lemma ws_onclose_spec w :
  timer_inv w →
  ws_onclose w = (scheduled (fst (set_isConnecting false w)), Normal tt).
Proof.
  intros Hinv. unfold ws_onclose, bind, set_isConnecting, modify. simpl.
  apply scheduleReconnect_spec. revert Hinv. by apply timer_inv_frame.
Qed.

Lemma ws_onopen_spec w :
  timer_inv w →
  ws_onopen w = (cleared (fst (set_isConnecting false w)), Normal tt).
Proof.
  intros Hinv. unfold ws_onopen, bind, set_isConnecting, modify. simpl.
  apply clearReconnectTimer_spec. revert Hinv. by apply timer_inv_frame.
Qed.

(** *** connect and disconnect *)

Lemma connect_noop ctor_ok w :
  ws_is_open w = true ∨ isConnecting (svc w) = true →
  connect ctor_ok w = (w, Normal tt).
Proof.
  intros H. unfold connect, bind, gets, ret.
  destruct H as [-> | ->]; [reflexivity | by rewrite orb_true_r].
Qed.

(** A connect that goes ahead and gets its socket. *)
Lemma connect_opens w :
  ws_is_open w = false → isConnecting (svc w) = false →
  ∃ w', connect true w = (w', Normal tt)
        ∧ sockets (env w') = sockets (env w) ++ [CONNECTING]
        ∧ ws (svc w') = Some (length (sockets (env w)))
        ∧ isConnecting (svc w') = true
        ∧ timers (env w') = timers (env w)
        ∧ reconnectTimer (svc w') = reconnectTimer (svc w)
        ∧ reconnectInterval (svc w') = reconnectInterval (svc w)
        ∧ listeners (svc w') = listeners (svc w).
Proof.
  intros Hopen Hconn. unfold connect, bind, gets. rewrite Hopen, Hconn. simpl.
  eexists. split; [reflexivity |]. simpl. done.
Qed.

(** A connect whose constructor throws schedules the reconnect. *)
Lemma connect_throws w :
  ws_is_open w = false → isConnecting (svc w) = false → timer_inv w →
  ∃ w', connect false w = (w', Normal tt)
        ∧ one_reconnect_pending w' ∧ timer_inv w'
        ∧ sockets (env w') = sockets (env w)
        ∧ ws (svc w') = ws (svc w)
        ∧ isConnecting (svc w') = false.
Proof.
  intros Hopen Hconn Hinv. unfold connect, bind, gets. rewrite Hopen, Hconn. simpl.
  unfold try_catch, bind, set_isConnecting, modify, new_WebSocket. simpl.
  rewrite scheduleReconnect_spec by (revert Hinv; by apply timer_inv_frame).
  eexists. split; [reflexivity |].
  split; [apply scheduled_one_pending |].
  split; [apply timer_inv_scheduled; revert Hinv; by apply timer_inv_frame |].
  done.
Qed.

Lemma connect_completes ctor_ok w :
  timer_inv w → snd (connect ctor_ok w) = Normal tt.
Proof.
  intros Hinv.
  destruct (ws_is_open w) eqn:Hopen; [by rewrite connect_noop by by left |].
  destruct (isConnecting (svc w)) eqn:Hconn; [by rewrite connect_noop by by right |].
  destruct ctor_ok.
  - by destruct (connect_opens w Hopen Hconn) as (w' & -> & _).
  - by destruct (connect_throws w Hopen Hconn Hinv) as (w' & -> & _).
Qed.

Lemma connect_timer_inv ctor_ok w :
  timer_inv w → timer_inv (run (connect ctor_ok) w).
Proof.
  intros Hinv. unfold run.
  destruct (ws_is_open w) eqn:Hopen; [by rewrite connect_noop by by left |].
  destruct (isConnecting (svc w)) eqn:Hconn; [by rewrite connect_noop by by right |].
  destruct ctor_ok.
  - destruct (connect_opens w Hopen Hconn) as (w' & -> & _ & _ & _ & Ht & Hrt & Hri & _).
    revert Hinv. by apply timer_inv_frame.
  - by destruct (connect_throws w Hopen Hconn Hinv) as (w' & -> & _ & Hinv' & _).
Qed.

(** What [disconnect] leaves behind. *)
Lemma disconnect_spec w :
  timer_inv w →
  ∃ w', disconnect w = (w', Normal tt)
        ∧ timers (env w') = []
        ∧ reconnectTimer (svc w') = None
        ∧ ws (svc w') = None
        ∧ listeners (svc w') = []
        ∧ reconnectInterval (svc w') = reconnectInterval (svc w)
        ∧ isConnecting (svc w') = isConnecting (svc w)
        ∧ app w' = app w ∧ calls w' = calls w
        ∧ sockets (env w')
          = match ws (svc w) with
            | Some s =>
                match sockets (env w) !! s with
                | Some CONNECTING | Some OPEN => <[ s := CLOSING ]> (sockets (env w))
                | _ => sockets (env w)
                end
            | None => sockets (env w)
            end.
Proof.
  intros Hinv. unfold disconnect. unfold bind at 1.
  rewrite (clearReconnectTimer_spec w Hinv).
  destruct w as [[sock ri rt ls ic] [socks tm nt snt] a cl].
  unfold cleared; simpl. cbv [bind gets]; simpl.
  destruct sock as [s|]; simpl.
  - unfold ws_close; simpl.
    destruct (socks !! s) as [[| | |]|]; simpl; eexists; (split; [reflexivity |]); done.
  - eexists. split; [reflexivity |]. done.
Qed.

Lemma disconnect_timer_inv w : timer_inv w → timer_inv (run disconnect w).
Proof.
  intros Hinv. unfold run.
  destruct (disconnect_spec w Hinv) as (w' & -> & Ht & _ & _ & _ & Hri & _).
  split; [simpl; rewrite Hri; apply Hinv | by left].
Qed.

(** *** Messages *)

Lemma ws_onmessage_spec (event : MessageEvent) w :
  ws_onmessage event w
  = match parsed event with
    | Normal data =>
        match get_prop data "type" with
        | Normal ty =>
            if strict_eq_str ty "content_moderation"
            then (delivered (listeners (svc w)) data w, Normal tt)
            else (w, Normal tt)
        | Throw => (w, Normal tt)
        end
    | Throw => (w, Normal tt)
    end.
Proof.
  unfold ws_onmessage, try_catch, bind, lift, ret.
  destruct (parsed event) as [data|]; [| reflexivity].
  destruct (get_prop data "type") as [ty|]; [| reflexivity].
  destruct (strict_eq_str ty "content_moderation"); [| reflexivity].
  by rewrite notifyListeners_delivers.
Qed.

Lemma ws_onmessage_frame (event : MessageEvent) w :
  ∃ w', ws_onmessage event w = (w', Normal tt)
        ∧ svc w' = svc w ∧ env w' = env w.
Proof.
  rewrite ws_onmessage_spec.
  destruct (parsed event) as [data|]; [| by eexists].
  destruct (get_prop data "type") as [ty|]; [| by eexists].
  destruct (strict_eq_str ty "content_moderation"); by eexists.
Qed.

(** *** Invariants of the event loop *)

Lemma send_frame (payload : SendData) w :
  ∃ w' c, send payload w = (w', c)
          ∧ svc w' = svc w ∧ timers (env w') = timers (env w)
          ∧ sockets (env w') = sockets (env w).
Proof.
  unfold send, bind, gets, lift. destruct (ws_is_open w); [| by eexists _, _].
  destruct (ws (svc w)); [| by eexists _, _].
  destruct payload; by eexists _, _.
Qed.

Lemma step_timer_inv w e w' :
  timer_inv w → step w e = Some w' → timer_inv w'.
Proof.
  intros Hinv. destruct e; simpl.
  - intros [= <-]. by apply connect_timer_inv.
  - intros [= <-]. by apply disconnect_timer_inv.
  - intros [= <-]. revert Hinv. by apply timer_inv_frame.
  - intros [= <-]. revert Hinv. by apply timer_inv_frame.
  - intros [= <-]. unfold run.
    destruct (send_frame data w) as (w1 & c & -> & Hsvc & Ht & _).
    revert Hinv. apply timer_inv_frame; simpl; by rewrite ?Hsvc.
  - destruct (sockets (env w) !! s) as [[| | |]|]; try discriminate.
    intros [= <-]. unfold run.
    rewrite ws_onopen_spec by by apply timer_inv_set_readyState.
    apply timer_inv_cleared. revert Hinv. by apply timer_inv_frame.
  - destruct (sockets (env w) !! s) as [[| | |]|]; try discriminate.
    intros [= <-]. unfold run.
    destruct (ws_onmessage_frame ev w) as (w1 & -> & Hsvc & Henv).
    revert Hinv. apply timer_inv_frame; simpl; by rewrite ?Hsvc, ?Henv.
  - assert (Hgo : timer_inv (run (bind ws_onerror (fun _ => ws_onclose))
                               (set_readyState s CLOSED w))).
    { unfold run, bind, ws_onerror, set_isConnecting, modify. simpl.
      rewrite ws_onclose_spec by (revert Hinv; by apply timer_inv_frame).
      apply timer_inv_scheduled. revert Hinv. by apply timer_inv_frame. }
    destruct (sockets (env w) !! s) as [[| | |]|]; try discriminate;
      by intros [= <-].
  - assert (Hgo : timer_inv (run ws_onclose (set_readyState s CLOSED w))).
    { unfold run.
      rewrite ws_onclose_spec by (revert Hinv; by apply timer_inv_frame).
      apply timer_inv_scheduled. revert Hinv. by apply timer_inv_frame. }
    destruct (sockets (env w) !! s) as [[| | |]|]; try discriminate;
      by intros [= <-].
  - destruct (timer_pending t w) eqn:Hp; [| discriminate].
    intros [= <-]. apply connect_timer_inv. by apply timer_inv_take_timer.
Qed.

Lemma reachable_timer_inv w : reachable w → timer_inv w.
Proof.
  induction 1 as [a | w w' e _ IH Hstep]; [apply timer_inv_init |].
  by eapply step_timer_inv.
Qed.

Lemma timer_inv_at_most_one w : timer_inv w → (length (timers (env w)) ≤ 1)%nat.
Proof. intros [_ [-> | (t & -> & _)]]; simpl; lia. Qed.

(** Only [subscribe], [unsubscribe] and [disconnect] touch the
    registry. *)
Lemma step_listeners w e w' :
  step w e = Some w' →
  listeners (svc w')
  = match e with
    | CallDisconnect => []
    | CallSubscribe k cb => map_set (listeners (svc w)) k cb
    | CallUnsubscribe k => map_delete (listeners (svc w)) k
    | _ => listeners (svc w)
    end.
Proof.
  destruct e; simpl.
  - intros [= <-]. destruct w as [[sock ri rt ls ic] [socks tm nt snt] a cl].
    js. unfold ws_is_open. simpl.
    destruct sock as [s|]; simpl;
      [destruct (socks !! s) as [[| | |]|]; simpl |];
      destruct ic, ctor_ok, rt; reflexivity.
  - intros [= <-]. destruct w as [[sock ri rt ls ic] [socks tm nt snt] a cl].
    js. unfold ws_close. simpl.
    destruct rt, sock as [s|]; simpl;
      try (destruct (socks !! s) as [[| | |]|]; simpl); reflexivity.
  - by intros [= <-].
  - by intros [= <-].
  - intros [= <-]. unfold run.
    destruct (send_frame data w) as (w1 & c & -> & Hsvc & _). simpl. by rewrite Hsvc.
  - destruct (sockets (env w) !! s) as [[| | |]|]; try discriminate.
    intros [= <-]. destruct w as [[sock ri rt ls ic] [socks tm nt snt] a cl].
    js. unfold set_readyState. simpl. destruct rt; reflexivity.
  - destruct (sockets (env w) !! s) as [[| | |]|]; try discriminate.
    intros [= <-]. unfold run.
    destruct (ws_onmessage_frame ev w) as (w1 & -> & Hsvc & _). simpl. by rewrite Hsvc.
  - assert (Hgo : listeners (svc (run (bind ws_onerror (fun _ => ws_onclose))
                                    (set_readyState s CLOSED w)))
                  = listeners (svc w)).
    { destruct w as [[sock ri rt ls ic] [socks tm nt snt] a cl].
      js. unfold set_readyState. simpl. destruct rt; reflexivity. }
    destruct (sockets (env w) !! s) as [[| | |]|]; try discriminate;
      by intros [= <-].
  - assert (Hgo : listeners (svc (run ws_onclose (set_readyState s CLOSED w)))
                  = listeners (svc w)).
    { destruct w as [[sock ri rt ls ic] [socks tm nt snt] a cl].
      js. unfold set_readyState. simpl. destruct rt; reflexivity. }
    destruct (sockets (env w) !! s) as [[| | |]|]; try discriminate;
      by intros [= <-].
  - destruct (timer_pending t w) eqn:Hp; [| discriminate].
    intros [= <-]. destruct w as [[sock ri rt ls ic] [socks tm nt snt] a cl].
    js. unfold ws_is_open, take_timer. simpl.
    destruct sock as [s|]; simpl;
      [destruct (socks !! s) as [[| | |]|]; simpl |];
      destruct ic, ctor_ok, rt; reflexivity.
Qed.

Lemma map_set_keys (ls : list (string * callback W)) k cb :
  List.map fst (map_set ls k cb)
  = if bool_decide (k ∈ List.map fst ls) then List.map fst ls
    else List.map fst ls ++ [k].
Proof.
  induction ls as [|[k' cb'] rest IH]; simpl; [reflexivity |].
  destruct (String.eqb_spec k' k) as [->|Hne]; simpl.
  - rewrite bool_decide_eq_true_2; [reflexivity | apply elem_of_cons; by left].
  - rewrite IH. destruct (decide (k ∈ List.map fst rest)) as [Hin|Hnotin].
    + rewrite !bool_decide_eq_true_2; [reflexivity | apply elem_of_cons; by right | done].
    + rewrite !bool_decide_eq_false_2; [reflexivity | | done].
      rewrite elem_of_cons. intros [-> | ?]; done.
Qed.

Lemma map_set_nodup (ls : list (string * callback W)) k cb :
  NoDup (List.map fst ls) → NoDup (List.map fst (map_set ls k cb)).
Proof.
  intros Hnd. rewrite map_set_keys. case_bool_decide as Hin; [done |].
  apply NoDup_app. repeat split; [done | | apply NoDup_singleton].
  intros x Hx Hk. apply list_elem_of_singleton in Hk as ->. done.
Qed.

Lemma map_delete_nodup (ls : list (string * callback W)) k :
  NoDup (List.map fst ls) → NoDup (List.map fst (map_delete ls k)).
Proof.
  unfold map_delete. induction ls as [|[k' cb'] rest IH]; simpl; [done |].
  intros Hnd. apply NoDup_cons in Hnd as [Hnotin Hnd].
  destruct (String.eqb k' k); simpl; [by apply IH |].
  apply NoDup_cons. split; [| by apply IH].
  intros Hin. apply Hnotin.
  apply list_elem_of_fmap in Hin as (p & -> & Hp).
  apply list_elem_of_fmap. exists p. split; [done |].
  by apply list_elem_of_In, filter_In in Hp as [Hp%list_elem_of_In _].
Qed.

(** The registry is a map: its keys stay distinct. *)
Lemma reachable_listeners_nodup w :
  reachable w → NoDup (List.map fst (listeners (svc w))).
Proof.
  induction 1 as [a | w w' e _ IH Hstep]; [apply NoDup_nil_2 |].
  rewrite (step_listeners _ _ _ Hstep).
  destruct e; try done.
  - apply NoDup_nil_2.
  - by apply map_set_nodup.
  - by apply map_delete_nodup.
Qed.

Lemma exec_reachable trace :
  ∀ w w', reachable w → exec w trace = Some w' → reachable w'.
Proof.
  induction trace as [|e rest IH]; simpl; intros w w' Hr.
  - by intros [= <-].
  - destruct (step w e) as [w1|] eqn:Hstep; [| discriminate].
    apply IH. by eapply reachable_step.
Qed.

Lemma close_event_schedules w s w' :
  timer_inv w → step w (SockClose s) = Some w' → one_reconnect_pending w'.
Proof.
  intros Hinv. simpl.
  assert (Hgo : one_reconnect_pending (run ws_onclose (set_readyState s CLOSED w))).
  { unfold run.
    rewrite ws_onclose_spec by (revert Hinv; by apply timer_inv_frame).
    apply scheduled_one_pending. }
  destruct (sockets (env w) !! s) as [[| | |]|]; try discriminate; by intros [= <-].
Qed.

Lemma fail_event_schedules w s w' :
  timer_inv w → step w (SockFail s) = Some w' → one_reconnect_pending w'.
Proof.
  intros Hinv. simpl.
  assert (Hgo : one_reconnect_pending (run (bind ws_onerror (fun _ => ws_onclose))
                                         (set_readyState s CLOSED w))).
  { unfold run, bind, ws_onerror, set_isConnecting, modify. simpl.
    rewrite ws_onclose_spec by (revert Hinv; by apply timer_inv_frame).
    apply scheduled_one_pending. }
  destruct (sockets (env w) !! s) as [[| | |]|]; try discriminate; by intros [= <-].
Qed.

(** The error handler clears [isConnecting] and nothing else. *)
Lemma ws_onerror_frame w :
  ∃ w', ws_onerror w = (w', Normal tt)
        ∧ env w' = env w
        ∧ reconnectTimer (svc w') = reconnectTimer (svc w)
        ∧ ws (svc w') = ws (svc w)
        ∧ listeners (svc w') = listeners (svc w)
        ∧ isConnecting (svc w') = false.
Proof. by eexists. Qed.

(** X5. After a disconnect made while no socket is alive (as during the
    reconnect wait), nothing is left that could bring a connection back:
    no connection exists, and no socket event and no timeout can
    occur. *)
Theorem disconnect_when_closed_is_final w :
  timer_inv w → all_closed w →
  ∃ w', disconnect w = (w', Normal tt)
        ∧ ws (svc w') = None
        ∧ timers (env w') = []
        ∧ sockets (env w') = sockets (env w)
        ∧ (∀ s, step w' (SockOpen s) = None)
        ∧ (∀ s ev, step w' (SockMessage s ev) = None)
        ∧ (∀ s, step w' (SockFail s) = None)
        ∧ (∀ s, step w' (SockClose s) = None)
        ∧ (∀ t ctor_ok, step w' (TimerFire t ctor_ok) = None).
Proof.
  intros Hinv Hclosed.
  destruct (disconnect_spec w Hinv) as (w' & Hd & Ht & Hrt & Hws & _ & _ & _ & _ & _ & Hs).
  assert (Hsocks : sockets (env w') = sockets (env w)).
  { rewrite Hs. destruct (ws (svc w)) as [s|]; [| done].
    destruct (sockets (env w) !! s) as [r|] eqn:Hr; [| done].
    by rewrite (Hclosed s r Hr). }
  assert (Hc : ∀ s, sockets (env w') !! s = None ∨ sockets (env w') !! s = Some CLOSED).
  { intros s. rewrite Hsocks. destruct (sockets (env w) !! s) as [r|] eqn:Hr; [| by left].
    right. by rewrite (Hclosed s r Hr). }
  exists w'. repeat split; try done; simpl.
  - intros s. by destruct (Hc s) as [-> | ->].
  - intros s ev. by destruct (Hc s) as [-> | ->].
  - intros s. by destruct (Hc s) as [-> | ->].
  - intros s. by destruct (Hc s) as [-> | ->].
  - intros t ctor_ok. unfold timer_pending. by rewrite Ht.
Qed.

End ChannelFacts.

(** ** One connection at a time *)

Section SingleConnection.
Import Websocket Channel.
Context {W : Type}.
Implicit Types (w : World W).








End SingleConnection.

(** ** The claims about the channel *)

Section ChannelClaims.
Import Websocket Channel.

Lemma after_reachable trace : reachable (Sample.after trace).
Proof.
  unfold Sample.after.
  destruct (exec (init 0) trace) as [w|] eqn:He; [| apply reachable_init].
  eapply exec_reachable; [apply (reachable_init 0) | exact He].
Qed.

(** C5, as stated, fails: an envelope with the handled discriminator and
    no action at all does not have the update shape, and still every
    subscriber is called with it. *)
Lemma C5_actionless_envelope_is_dispatched :
  ¬ conforming Sample.actionless
  ∧ calls (run (ws_onmessage Sample.actionless) Sample.connected)
    = [("hateraide-analysis", Sample.bareEnvelope)]
  ∧ app (run (ws_onmessage Sample.actionless) Sample.connected) = 1.
Proof.
  split; [| split; reflexivity].
  intros (data & action & [= <-] & _ & [= <-] & (a & Hid & _)). discriminate Hid.
Qed.

(** C5, amended. A message that does not parse, or whose parsed value
    does not carry the discriminator [content_moderation] in its [type]
    property, calls no subscriber and changes nothing at all. Every
    message, whatever it holds, is handled without an exception and
    leaves the fields of the service and the browser's sockets and
    timers as they were. A message that carries the discriminator is
    dispatched to every subscriber whether or not it holds a well-formed
    action. *)
Theorem C5_unhandled_message_dropped {W : Type} :
  (∀ (event : MessageEvent) (w : World W),
     (∀ data, parsed event = Normal data → ¬ has_discriminator data) →
     ws_onmessage event w = (w, Normal tt))
  ∧ (∀ (event : MessageEvent) (w : World W),
       ∃ w', ws_onmessage event w = (w', Normal tt)
             ∧ svc w' = svc w ∧ env w' = env w)
  ∧ (∀ (event : MessageEvent) (data : jsval) (w : World W),
       parsed event = Normal data → has_discriminator data →
       ws_onmessage event w = (delivered (listeners (svc w)) data w, Normal tt)).
Proof.
  repeat split.
  - intros event w Hno. rewrite ws_onmessage_spec.
    destruct (parsed event) as [data|] eqn:Hp; [| reflexivity].
    specialize (Hno data eq_refl). unfold has_discriminator in Hno.
    destruct (get_prop data "type") as [ty|]; [| reflexivity].
    destruct (strict_eq_str ty "content_moderation") eqn:Heq; [| reflexivity].
    apply strict_eq_str_true in Heq as ->. done.
  - intros event w. apply ws_onmessage_frame.
  - intros event data w Hp Hd. rewrite ws_onmessage_spec, Hp, Hd. reflexivity.
Qed.

(** Scenario 4: a ping on an open channel with a subscriber. *)
Lemma C5_unhandled_message_dropped_witness :
  ws_onmessage Sample.ping Sample.connected = (Sample.connected, Normal tt)
  ∧ ws_onmessage Sample.garbled Sample.connected = (Sample.connected, Normal tt).
Proof.
  split.
  - apply (proj1 C5_unhandled_message_dropped Sample.ping Sample.connected).
    intros data [= <-]. discriminate.
  - apply (proj1 C5_unhandled_message_dropped Sample.garbled Sample.connected).
    intros data [=].
Defined.

(** Three subscribers, the second of which throws: each is called once
    with the update. *)
Lemma C6_isolated_listener_failure_witness :
  ∃ w' log,
    notifyListeners Sample.bareEnvelope Sample.threeListeners = (w', Normal tt)
    ∧ svc w' = svc Sample.threeListeners ∧ env w' = env Sample.threeListeners
    ∧ app w' = 3
    ∧ calls w' = calls Sample.threeListeners ++ log
    ∧ (∀ k arg, (k, arg) ∈ log → arg = Sample.bareEnvelope)
    ∧ (∀ k cb, (k, cb) ∈ listeners (svc Sample.threeListeners) →
         times_called k log = 1).
Proof.
  destruct (C6_isolated_listener_failure Sample.bareEnvelope Sample.threeListeners)
    as (w' & log & Hrun & Hsvc & Henv & Happ & _ & Hcalls & Harg & Honce).
  { apply (bool_decide_unpack _). vm_compute. exact I. }
  exists w', log. repeat split; try assumption.
Defined.

(** The guard of [connect]. While the connection is open, or while
    [isConnecting] is set, [connect] does nothing: the whole world comes
    back unchanged, so no socket is constructed, no timer is set and no
    field of the service moves. Hence calling [connect] twice in a row
    constructs what calling it once does. *)
Lemma connect_twice_is_once {W : Type} :
  (∀ (ctor_ok : bool) (w : World W),
     ws_is_open w = true ∨ isConnecting (svc w) = true →
     connect ctor_ok w = (w, Normal tt))
  ∧ (∀ (ctor_ok : bool) (w : World W),
       connect ctor_ok (run (connect true) w) = (run (connect true) w, Normal tt)).
Proof.
  split; [apply @connect_noop |].
  intros ctor_ok w. apply connect_noop. unfold run.
  destruct (ws_is_open w) eqn:Hopen;
    [rewrite connect_noop by (by left); by left |].
  destruct (isConnecting (svc w)) eqn:Hconn;
    [rewrite connect_noop by (by right); by right |].
  destruct (connect_opens w Hopen Hconn) as (w' & -> & _ & _ & Hic & _).
  by right.
Qed.

(** A second [connect] during the attempt, and one on the open
    connection. *)
Lemma connect_twice_is_once_example :
  connect true Sample.connecting = (Sample.connecting, Normal tt)
  ∧ connect true Sample.connected = (Sample.connected, Normal tt).
Proof.
  split.
  - apply (proj1 connect_twice_is_once true Sample.connecting). right. reflexivity.
  - apply (proj1 connect_twice_is_once true Sample.connected). left. reflexivity.
Qed.

(** C8. In every state the event loop can reach, at most one timeout is
    pending, its delay is 5000 ms and it is the one stored in
    [reconnectTimer]. A close event, and an error event (which the
    browser delivers together with the close event that follows it),
    leaves exactly one reconnect pending, and so do [scheduleReconnect]
    itself and a [connect] whose socket constructor throws: each first
    cancels the timer that was pending. Of the two handlers an error
    runs, it is the close handler that schedules; the error handler sets
    and cancels no timer. *)
Theorem C8_single_reconnect_timer {W : Type} (w : World W) :
  reachable w →
  (length (timers (env w)) ≤ 1)%nat
  ∧ (∀ t d, (t, d) ∈ timers (env w) → d = 5000%Z ∧ reconnectTimer (svc w) = Some t)
  ∧ (∀ s w', step w (SockClose s) = Some w' → one_reconnect_pending w')
  ∧ (∀ s w', step w (SockFail s) = Some w' → one_reconnect_pending w')
  ∧ one_reconnect_pending (run scheduleReconnect w)
  ∧ (ws_is_open w = false → isConnecting (svc w) = false →
     one_reconnect_pending (run (connect false) w))
  ∧ timers (env (run ws_onerror w)) = timers (env w).
Proof.
  intros Hr. pose proof (reachable_timer_inv w Hr) as Hinv.
  split; [by apply timer_inv_at_most_one |].
  split.
  { intros t d Hin. destruct Hinv as [_ [Hnil | (t' & Ht & Hrt)]].
    - rewrite Hnil in Hin. by apply elem_of_nil in Hin.
    - rewrite Ht in Hin. apply list_elem_of_singleton in Hin.
      injection Hin as -> ->. done. }
  repeat split.
  - intros s w'. by apply close_event_schedules.
  - intros s w'. by apply fail_event_schedules.
  - unfold run. rewrite scheduleReconnect_spec by done. apply scheduled_one_pending.
  - intros Hopen Hconn. unfold run.
    by destruct (connect_throws w Hopen Hconn Hinv) as (w' & -> & Hone & _).
Qed.

(** Losing the open connection leaves one reconnect pending. *)
Lemma C8_single_reconnect_timer_witness :
  one_reconnect_pending Sample.waiting.
Proof.
  assert (Hr : reachable Sample.connected) by apply after_reachable.
  destruct (C8_single_reconnect_timer Sample.connected Hr)
    as (_ & _ & _ & Hfail & _).
  apply (Hfail 0). reflexivity.
Defined.

(** C9 against the code. [disconnect] on a live connection: the socket
    keeps its [onclose] handler, so when its close event arrives the
    service schedules a reconnect, and when that timeout fires a new
    socket is constructed, five seconds after the disconnect. *)
Theorem C9_disconnect_then_close_reconnects :
  ∃ w1 w2 w3 : World nat,
    exec (init 0) [CallSubscribe "hateraide-analysis" Sample.counting;
                   CallConnect true; SockOpen 0; CallDisconnect] = Some w1
    ∧ ws (svc w1) = None ∧ timers (env w1) = [] ∧ listeners (svc w1) = []
    ∧ sockets (env w1) = [CLOSING]
    ∧ step w1 (SockClose 0) = Some w2
    ∧ timers (env w2) = [(1, 5000%Z)] ∧ reconnectTimer (svc w2) = Some 1
    ∧ step w2 (TimerFire 1 true) = Some w3
    ∧ ws (svc w3) = Some 1 ∧ sockets (env w3) = [CLOSED; CONNECTING].
Proof.
  do 3 eexists.
  split; [reflexivity |].
  do 4 (split; [reflexivity |]).
  split; [reflexivity |].
  do 2 (split; [reflexivity |]).
  split; [reflexivity |].
  split; reflexivity.
Qed.

End ChannelClaims.

(** ** Reply components as subscribers *)

Section ReplySubscribers.
Import Websocket Channel Feed.


(** On a well-formed update the callback compares the action's
    [reply_id] with the reply's id. *)
Lemma onUpdate_update (reply : Reply) (a : ModerationAction) st :
  ReplyComponent.onUpdate reply (js_of_update a) st
  = if String.eqb (reply_id a) (id reply) then (rehidden (js_of_action a), Normal tt)
    else (st, Normal tt).
Proof. reflexivity. Qed.

(** A callback never changes the state on a throw. *)
Lemma onUpdate_throw_keeps (reply : Reply) update st :
  snd (ReplyComponent.onUpdate reply update st) = Throw →
  fst (ReplyComponent.onUpdate reply update st) = st.
Proof.
  unfold ReplyComponent.onUpdate.
  destruct (get_prop update "action") as [action|]; [| done].
  destruct (get_prop action "reply_id") as [rid|]; [| done].
  by destruct (strict_eq_str rid (id reply)).
Qed.

Lemma subscriptionId_inj (r r' : Reply) :
  ReplyComponent.subscriptionId r = ReplyComponent.subscriptionId r' → id r = id r'.
Proof. unfold ReplyComponent.subscriptionId. simpl. by intros [=]. Qed.


Lemma map_set_absent {W : Type} (ls : list (string * callback W)) k cb :
  k ∉ List.map fst ls → map_set ls k cb = ls ++ [(k, cb)].
Proof.
  induction ls as [|[k0 cb0] rest IH]; simpl; [done |].
  intros Hnot. apply not_elem_of_cons in Hnot as [Hne Hrest].
  destruct (String.eqb_spec k0 k); [congruence |]. by rewrite IH.
Qed.

(** Mounting the components one after the other, each subscribing under
    its own id, builds the registry [mountedListeners]. *)
Lemma subscribe_all_mounts (replies : list Reply) :
  ∀ ls0 : list (string * callback States),
    NoDup (List.map id replies) →
    (∀ r, r ∈ replies → ReplyComponent.subscriptionId r ∉ List.map fst ls0) →
    fold_left (fun ls r => map_set ls (ReplyComponent.subscriptionId r) (replyListener r))
      replies ls0
    = ls0 ++ mountedListeners replies.
Proof.
  induction replies as [|r rest IH]; intros ls0 Hnd Hfresh; simpl.
  - by rewrite app_nil_r.
  - apply NoDup_cons in Hnd as [Hnotin Hnd].
    rewrite map_set_absent by (apply Hfresh, elem_of_cons; by left).
    rewrite IH; [by rewrite <- app_assoc | done |].
    intros r' Hr'. rewrite map_app. simpl. rewrite elem_of_app, list_elem_of_singleton.
    intros [Hin | Heq].
    + revert Hin. apply Hfresh, elem_of_cons. by right.
    + apply subscriptionId_inj in Heq. apply Hnotin. rewrite <- Heq.
      apply list_elem_of_fmap. eauto.
Qed.







End ReplySubscribers.

(** ** Further properties of the contract *)

Section Contract.
Import Websocket Channel.




(** C7 against the code. After a [disconnect] on a live socket the
    guard of [connect] can be undone by that socket's close event: the
    handler, which [disconnect] left attached, clears [isConnecting]
    while the next attempt is in flight (socket 1, the one in [this.ws],
    is connecting). A further [connect] is then no no-op: it constructs a
    second socket beside the connecting one and changes [this.ws]; and
    so does the timeout that handler scheduled, when it fires. *)
Theorem stale_close_allows_second_socket :
  ∃ w w' w'' : World nat,
    exec (init 0) [CallConnect true; SockOpen 0; CallDisconnect;
                   CallConnect true; SockClose 0] = Some w
    ∧ sockets (env w) = [CLOSED; CONNECTING]
    ∧ ws (svc w) = Some 1 ∧ isConnecting (svc w) = false
    ∧ step w (CallConnect true) = Some w'
    ∧ connect true w = (w', Normal tt)
    ∧ sockets (env w') = [CLOSED; CONNECTING; CONNECTING]
    ∧ ws (svc w') = Some 2
    ∧ step w (TimerFire 1 true) = Some w''
    ∧ sockets (env w'') = [CLOSED; CONNECTING; CONNECTING].
Proof. do 3 eexists. repeat split; reflexivity. Qed.

(** X2. Replaying a Live update leaves the Live map as the first
    application left it. *)
Theorem live_update_idempotent (update : jsval) (prev next : gmap string jsval) :
  App.liveUpdate update prev = Normal next →
  App.liveUpdate update next = Normal next.
Proof.
  unfold App.liveUpdate.
  destruct (get_prop update "action") as [action|]; [| discriminate].
  destruct (get_prop action "reply_id") as [[| | | | replyId | |]|];
    try discriminate; try (by intros [= <-]).
  intros [= <-]. by rewrite insert_insert_eq.
Qed.

Lemma live_update_idempotent_witness :
  App.liveUpdate (js_of_update (Sample.pushed "r2" hide))
    (<[ "r2" := js_of_action (Sample.pushed "r2" hide) ]> ∅)
  = Normal (<[ "r2" := js_of_action (Sample.pushed "r2" hide) ]> ∅).
Proof.
  apply (live_update_idempotent (js_of_update (Sample.pushed "r2" hide)) ∅).
  reflexivity.
Defined.

(** A Live update replaces the entry of its reply and no other. *)
Lemma live_update_replaces (a : ModerationAction) (prev : gmap string jsval) :
  ∃ next, App.liveUpdate (js_of_update a) prev = Normal next
          ∧ next !! reply_id a = Some (js_of_action a)
          ∧ ∀ k, k ≠ reply_id a → next !! k = prev !! k.
Proof.
  eexists. split; [reflexivity |]. split.
  - by rewrite lookup_insert_eq.
  - intros k Hne. by rewrite lookup_insert_ne.
Qed.

Lemma map_set_in {W : Type} (ls : list (string * callback W)) k cb :
  NoDup (List.map fst ls) →
  (∀ cb', (k, cb') ∈ map_set ls k cb ↔ cb' = cb)
  ∧ (∀ k' cb', k' ≠ k → ((k', cb') ∈ map_set ls k cb ↔ (k', cb') ∈ ls)).
Proof.
  induction ls as [|[k0 cb0] rest IH]; simpl; intros Hnd.
  - split.
    + intros cb'. rewrite list_elem_of_singleton. split; [by intros [=] | by intros ->].
    + intros k' cb' Hne. rewrite list_elem_of_singleton, elem_of_nil.
      split; [intros [=]; done | done].
  - apply NoDup_cons in Hnd as [Hnotin Hnd].
    destruct (String.eqb_spec k0 k) as [->|Hk0].
    + split.
      * intros cb'. rewrite elem_of_cons. split; [| intros ->; by left].
        intros [[=] | Hin]; [done |]. exfalso. apply Hnotin.
        apply list_elem_of_fmap. by exists (k, cb').
      * intros k' cb' Hne. rewrite !elem_of_cons.
        split; (intros [[=] | Hin]; [done | by right]).
    + destruct (IH Hnd) as [IHk IHo]. split.
      * intros cb'. rewrite elem_of_cons, IHk.
        split; [intros [[=] | ?]; done | by right].
      * intros k' cb' Hne. rewrite !elem_of_cons, (IHo k' cb' Hne). done.
Qed.

(** X3. The registry holds one callback per subscription id:
    subscribing under an id that is taken replaces its callback and
    keeps every other subscription, and unsubscribing removes the id's
    callback, keeps the others, and does nothing for an id that is not
    subscribed. *)
Theorem subscribe_one_callback_per_id {W : Type} (w : World W) (k : string)
    (cb : callback W) :
  NoDup (List.map fst (listeners (svc w))) →
  (let ls' := listeners (svc (run (subscribe k cb) w)) in
   NoDup (List.map fst ls')
   ∧ (∀ cb', (k, cb') ∈ ls' ↔ cb' = cb)
   ∧ (∀ k' cb', k' ≠ k → ((k', cb') ∈ ls' ↔ (k', cb') ∈ listeners (svc w))))
  ∧ (let ls' := listeners (svc (run (unsubscribe k) w)) in
     (∀ cb', (k, cb') ∉ ls')
     ∧ (∀ k' cb', k' ≠ k → ((k', cb') ∈ ls' ↔ (k', cb') ∈ listeners (svc w)))
     ∧ (k ∉ List.map fst (listeners (svc w)) → ls' = listeners (svc w))).
Proof.
  intros Hnd. split; simpl.
  - split; [by apply map_set_nodup |]. by apply map_set_in.
  - unfold map_delete. repeat split.
    + intros cb' Hin. apply list_elem_of_In, filter_In in Hin as [_ Hk].
      simpl in Hk. by rewrite String.eqb_refl in Hk.
    + intros Hin. apply list_elem_of_In, filter_In in Hin as [Hin _].
      by apply list_elem_of_In.
    + intros Hin. apply list_elem_of_In, filter_In. split; [by apply list_elem_of_In |].
      simpl. by destruct (String.eqb_spec k' k).
    + intros Hnot. induction (listeners (svc w)) as [|[k0 cb0] rest IH]; simpl; [done |].
      apply NoDup_cons in Hnd as [_ Hnd]. simpl in Hnot.
      apply not_elem_of_cons in Hnot as [Hne Hrest].
      destruct (String.eqb_spec k0 k); [congruence |]. simpl. by rewrite IH.
Qed.

Lemma subscribe_one_callback_per_id_witness :
  listeners (svc (run (subscribe "a" Sample.failing) Sample.threeListeners))
  = [("a", Sample.failing); ("b", Sample.failing); ("c", Sample.counting)]
  ∧ ∀ cb', ("a", cb') ∈ listeners (svc (run (subscribe "a" Sample.failing)
                                           Sample.threeListeners))
           ↔ cb' = Sample.failing.
Proof.
  split; [reflexivity |].
  apply (subscribe_one_callback_per_id Sample.threeListeners "a" Sample.failing).
  apply (bool_decide_unpack _). vm_compute. exact I.
Defined.

(** X4. [send] transmits only while the connection is open; otherwise
    the call changes nothing and raises nothing. *)
Theorem send_only_when_open {W : Type} (data : jsval) (w : World W) :
  (ws_is_open w = false → send (Json data) w = (w, Normal tt))
  ∧ (ws_is_open w = true →
     ∃ s w', ws (svc w) = Some s ∧ send (Json data) w = (w', Normal tt)
             ∧ sent (env w') = sent (env w) ++ [(s, data)]
             ∧ svc w' = svc w ∧ sockets (env w') = sockets (env w)
             ∧ timers (env w') = timers (env w)).
Proof.
  unfold send, bind, gets, ret. split; intros Hopen; rewrite Hopen; [done |].
  unfold ws_is_open in Hopen.
  destruct (ws (svc w)) as [s|]; [| discriminate].
  exists s. eexists. split; [reflexivity |]. split; [reflexivity |]. done.
Qed.

Lemma send_only_when_open_witness :
  send (Json Sample.bareEnvelope) Sample.waiting = (Sample.waiting, Normal tt).
Proof.
  apply (proj1 (send_only_when_open Sample.bareEnvelope Sample.waiting)).
  reflexivity.
Defined.

(** Scenario 5: [disconnect] during the reconnect wait. *)
Lemma disconnect_when_closed_is_final_witness :
  ∃ w', disconnect Sample.waiting = (w', Normal tt)
        ∧ ws (svc w') = None
        ∧ timers (env w') = []
        ∧ sockets (env w') = sockets (env Sample.waiting)
        ∧ (∀ s, step w' (SockOpen s) = None)
        ∧ (∀ s ev, step w' (SockMessage s ev) = None)
        ∧ (∀ s, step w' (SockFail s) = None)
        ∧ (∀ s, step w' (SockClose s) = None)
        ∧ (∀ t ctor_ok, step w' (TimerFire t ctor_ok) = None).
Proof.
  apply (disconnect_when_closed_is_final Sample.waiting).
  - apply reachable_timer_inv, after_reachable.
  - intros s r Hs. destruct s as [|s]; simpl in Hs; [by injection Hs as <- | done].
Defined.

End Contract.

(** ** The channel: opening, retrying, unsubscribing *)

Section ChannelLifecycle.
Import Websocket Channel.

(** X6. When a socket opens, any pending reconnect timer is cancelled
    and forgotten and [isConnecting] is cleared; the registry is left as
    it was. *)
Theorem open_cancels_reconnect {W : Type} (w w' : World W) (s : nat) :
  reachable w →
  step w (SockOpen s) = Some w' →
  timers (env w') = []
  ∧ reconnectTimer (svc w') = None
  ∧ isConnecting (svc w') = false
  ∧ sockets (env w') = <[ s := OPEN ]> (sockets (env w))
  ∧ ws (svc w') = ws (svc w)
  ∧ listeners (svc w') = listeners (svc w).
Proof.
  intros Hr. pose proof (reachable_timer_inv w Hr) as Hinv. simpl.
  destruct (sockets (env w) !! s) as [[| | |]|]; try discriminate.
  intros [= <-]. unfold run.
  rewrite ws_onopen_spec by by apply timer_inv_set_readyState.
  done.
Qed.

Lemma open_cancels_reconnect_witness :
  timers (env Fixture.retrying) = [(1, 5000%Z)]
  ∧ ∃ w', step Fixture.retrying (SockOpen 0) = Some w'
          ∧ timers (env w') = [] ∧ reconnectTimer (svc w') = None.
Proof.
  split; [reflexivity |]. eexists. split; [reflexivity |].
  destruct (open_cancels_reconnect Fixture.retrying _ 0
              (after_reachable _) eq_refl) as (Ht & Hrt & _).
  by split.
Defined.




Lemma filter_key_after_delete {W : Type} (ls : list (string * callback W)) k k' :
  List.filter (fun p => String.eqb (fst p) k') (map_delete ls k)
  = if String.eqb k k' then [] else List.filter (fun p => String.eqb (fst p) k') ls.
Proof.
  unfold map_delete. destruct (String.eqb_spec k k') as [Heq|Hkk'].
  - subst k'. induction ls as [|[k0 cb0] rest IH]; simpl; [done |].
    destruct (String.eqb_spec k0 k) as [->|Hne]; simpl; [exact IH |].
    by destruct (String.eqb_spec k0 k).
  - induction ls as [|[k0 cb0] rest IH]; simpl; [done |].
    destruct (String.eqb_spec k0 k) as [->|Hne]; simpl.
    + destruct (String.eqb_spec k k'); [done | exact IH].
    + by rewrite IH.
Qed.

(** X8. After [unsubscribe(id)] a dispatch no longer calls the callback
    registered under that id, calls every other subscriber as often as
    before, and the connection, the timers and the subscribers' state
    are not touched by the unsubscribing. *)
Theorem unsubscribed_never_called {W : Type} (w : World W) (k : string) (data : jsval) :
  ∃ w1 w2 log log0,
    unsubscribe k w = (w1, Normal tt)
    ∧ env w1 = env w ∧ app w1 = app w
    ∧ ws (svc w1) = ws (svc w) ∧ isConnecting (svc w1) = isConnecting (svc w)
    ∧ reconnectTimer (svc w1) = reconnectTimer (svc w)
    ∧ notifyListeners data w1 = (w2, Normal tt)
    ∧ calls w2 = calls w1 ++ log
    ∧ calls (run (notifyListeners data) w) = calls w ++ log0
    ∧ times_called k log = 0
    ∧ ∀ k', k' ≠ k → times_called k' log = times_called k' log0.
Proof.
  eexists. eexists.
  exists (List.map (fun p => (fst p, data)) (map_delete (listeners (svc w)) k)),
         (List.map (fun p => (fst p, data)) (listeners (svc w))).
  split; [reflexivity |]. do 5 (split; [reflexivity |]).
  split; [apply notifyListeners_delivers |].
  split; [reflexivity |].
  split; [unfold run; by rewrite notifyListeners_delivers |].
  split.
  - rewrite times_called_delivered, filter_key_after_delete.
    by rewrite String.eqb_refl.
  - intros k' Hne. rewrite !times_called_delivered, filter_key_after_delete.
    destruct (String.eqb_spec k k'); [congruence | reflexivity].
Qed.

(** X9. What can raise to the caller. No method of the service and no
    handler it installs raises, in any state (not [connect] when the
    socket constructor throws, not the message handler on a message that
    does not parse or when a subscriber throws), with one exception:
    [send] raises exactly when the connection is open and
    [JSON.stringify] raises on the data; nothing is sent and nothing
    changes then. *)
Theorem service_raises_only_in_send {W : Type} (w : World W) :
  (∀ ctor_ok, snd (connect ctor_ok w) = Normal tt)
  ∧ snd (disconnect w) = Normal tt
  ∧ (∀ k cb, snd (subscribe k cb w) = Normal tt)
  ∧ (∀ k, snd (unsubscribe k w) = Normal tt)
  ∧ (∀ payload,
       (snd (send payload w) = Throw
        ↔ ws_is_open w = true ∧ JSON_stringify payload = Throw)
       ∧ (snd (send payload w) = Throw → fst (send payload w) = w))
  ∧ snd (ws_onopen w) = Normal tt
  ∧ (∀ event, snd (ws_onmessage event w) = Normal tt)
  ∧ snd (ws_onerror w) = Normal tt
  ∧ snd (ws_onclose w) = Normal tt.
Proof.
  split; [| split; [| split; [| split; [| split; [| split; [| split; [| split]]]]]]];
    try reflexivity.
  - intros ctor_ok. destruct w as [[sock ri rt ls ic] [socks tm nt snt] a cl].
    cbv [connect scheduleReconnect clearReconnectTimer bind ret try_catch gets
         modify set_ws set_reconnectTimer set_isConnecting new_WebSocket
         setTimeout clearTimeout with_svc with_env].
    unfold ws_is_open. simpl.
    destruct sock as [s|]; simpl;
      [destruct (socks !! s) as [[| | |]|]; simpl |];
      destruct ic, ctor_ok, rt; reflexivity.
  - destruct w as [[sock ri rt ls ic] [socks tm nt snt] a cl].
    cbv [disconnect clearReconnectTimer bind ret gets modify set_ws
         set_reconnectTimer set_listeners clearTimeout with_svc with_env].
    unfold ws_close. simpl.
    destruct rt, sock as [s|]; simpl;
      try (destruct (socks !! s) as [[| | |]|]; simpl); reflexivity.
  - intros payload. unfold send, bind, gets, lift, ret.
    destruct (ws_is_open w) eqn:Hopen.
    + unfold ws_is_open in Hopen.
      destruct (ws (svc w)) as [s|]; [| discriminate].
      destruct payload; simpl; split; try done.
      * split; [discriminate | intros [_ [=]]].
    + split; [| discriminate]. split; [discriminate | intros [[=] _]].
  - destruct w as [[sock ri rt ls ic] [socks tm nt snt] a cl].
    cbv [ws_onopen clearReconnectTimer bind ret gets modify
         set_reconnectTimer set_isConnecting clearTimeout with_svc with_env].
    simpl. destruct rt; reflexivity.
  - intros event. by destruct (ws_onmessage_frame event w) as (w1 & -> & _).
  - destruct w as [[sock ri rt ls ic] [socks tm nt snt] a cl].
    cbv [ws_onclose scheduleReconnect clearReconnectTimer bind ret gets modify
         set_reconnectTimer set_isConnecting setTimeout clearTimeout
         with_svc with_env].
    simpl. destruct rt; reflexivity.
Qed.



End ChannelLifecycle.

(** ** The Live map and the status snapshot *)

Section SnapshotFacts.
Import App Snapshot.



(** A snapshot without [moderation_actions] changes nothing, and an
    empty one empties the Live map. *)
Lemma snapshot_edge_cases (st : State) :
  loadInitialStatus {| moderation_actions := None |} st = st
  ∧ moderationActions (loadInitialStatus {| moderation_actions := Some ∅ |} st) = ∅.
Proof. split; reflexivity. Qed.

End SnapshotFacts.

(** ** Suggested replies *)

Section SuggestionFacts.
Import Suggestions.

Lemma suggest_entry_usable (m : gmap string string) action :
  suggest_entry m action
  = match usable action with
    | Some (k, v) => <[ k := v ]> m
    | None => m
    end.
Proof.
  unfold suggest_entry, usable.
  destruct (rec_reply_id action) as [k|], (suggested_response action) as [v|];
    try reflexivity.
  by destruct (negb (String.eqb k "") && negb (String.eqb v "")).
Qed.

Lemma usable_not_empty action k v : usable action = Some (k, v) → k ≠ "" ∧ v ≠ "".
Proof.
  unfold usable.
  destruct (rec_reply_id action) as [k0|], (suggested_response action) as [v0|];
    try discriminate.
  destruct (String.eqb_spec k0 ""), (String.eqb_spec v0 ""); simpl; try discriminate.
  by intros [= <- <-].
Qed.

Lemma fold_suggestions_lookup steps :
  ∀ (m : gmap string string) replyId,
    fold_left suggest_entry steps m !! replyId
    = match last_usable steps replyId with
      | Some v => Some v
      | None => m !! replyId
      end.
Proof.
  induction steps as [|action rest IH]; intros m replyId; simpl; [reflexivity |].
  rewrite IH. destruct (last_usable rest replyId) as [v|]; [reflexivity |].
  rewrite suggest_entry_usable.
  destruct (usable action) as [[k v]|]; [| reflexivity].
  destruct (String.eqb_spec k replyId) as [->|Hne].
  - by rewrite lookup_insert_eq.
  - by rewrite lookup_insert_ne.
Qed.

Lemma last_usable_some steps replyId v :
  last_usable steps replyId = Some v →
  ∃ action, action ∈ steps ∧ usable action = Some (replyId, v).
Proof.
  induction steps as [|action rest IH]; simpl; [discriminate |].
  destruct (last_usable rest replyId) as [v0|].
  - intros [= ->]. destruct IH as (b & Hb & Hu); [reflexivity |].
    exists b. split; [apply elem_of_cons; by right | exact Hu].
  - destruct (usable action) as [[k v0]|] eqn:Hu; [| discriminate].
    destruct (String.eqb_spec k replyId) as [->|]; [| discriminate].
    intros [= ->]. exists action. split; [apply elem_of_cons; by left | exact Hu].
Qed.

Lemma last_usable_none steps replyId :
  last_usable steps replyId = None →
  ∀ action v, action ∈ steps → usable action ≠ Some (replyId, v).
Proof.
  induction steps as [|action rest IH]; simpl; intros Hnone b v Hb.
  - by apply elem_of_nil in Hb.
  - destruct (last_usable rest replyId) as [v0|]; [discriminate |].
    apply elem_of_cons in Hb as [-> | Hb]; [| by apply IH].
    intros Hu. rewrite Hu, String.eqb_refl in Hnone. discriminate.
Qed.

(** X12. The map of suggested replies built from the next-steps payload
    has a reply id as a key exactly when some recommendation carries that
    id and a suggested response, both not empty; no key and no text in it
    is empty; the text under an id is the one of the last such
    recommendation for it. *)
Theorem suggestions_mapping (steps : list Recommendation) :
  let m := buildSuggestions steps in
  (∀ replyId,
     is_Some (m !! replyId)
     ↔ ∃ action v, action ∈ steps ∧ usable action = Some (replyId, v))
  ∧ (∀ replyId v, m !! replyId = Some v → replyId ≠ "" ∧ v ≠ "")
  ∧ (∀ before action after replyId v,
       steps = before ++ action :: after →
       usable action = Some (replyId, v) →
       (∀ later v', later ∈ after → usable later ≠ Some (replyId, v')) →
       m !! replyId = Some v).
Proof.
  intros m. subst m. unfold buildSuggestions. repeat split.
  - rewrite fold_suggestions_lookup. intros [v Hv].
    destruct (last_usable steps replyId) as [v0|] eqn:Hl;
      [| by rewrite lookup_empty in Hv].
    destruct (last_usable_some steps replyId v0 Hl) as (action & Hin & Hu). eauto.
  - intros (action & v & Hin & Hu). rewrite fold_suggestions_lookup.
    destruct (last_usable steps replyId) as [v0|] eqn:Hl; [eauto |].
    exfalso. by eapply last_usable_none.
  - rewrite fold_suggestions_lookup in H.
    destruct (last_usable steps replyId) as [v0|] eqn:Hl;
      [| by rewrite lookup_empty in H].
    destruct (last_usable_some steps replyId v0 Hl) as (action & _ & Hu).
    by apply usable_not_empty in Hu as [? _].
  - rewrite fold_suggestions_lookup in H.
    destruct (last_usable steps replyId) as [v0|] eqn:Hl;
      [| by rewrite lookup_empty in H].
    injection H as <-.
    destruct (last_usable_some steps replyId v0 Hl) as (action & _ & Hu).
    by apply usable_not_empty in Hu as [_ ?].
  - intros before action after replyId v -> Hu Hlater.
    rewrite fold_left_app. simpl. rewrite fold_suggestions_lookup.
    destruct (last_usable after replyId) as [v0|] eqn:Hl.
    + exfalso. destruct (last_usable_some after replyId v0 Hl) as (b & Hb & Hub).
      by eapply Hlater.
    + rewrite suggest_entry_usable, Hu. by rewrite lookup_insert_eq.
Qed.

(** X13. The reply box. A click on Reply under a reply toggles that
    reply's box and closes every other one, so at most one box is open;
    a box that opens shows the stored suggestion of its reply, or
    nothing, whatever draft was typed before; a box that closes drops the
    draft. *)
Theorem reply_box_toggle (st : State) (replyId : string) :
  boxOpen replyId (handleNotableUserReply replyId st) = negb (boxOpen replyId st)
  ∧ (∀ other, other ≠ replyId →
       boxOpen other (handleNotableUserReply replyId st) = false)
  ∧ (∀ draft,
       replyText (handleNotableUserReply replyId (typeReply draft st))
       = if boxOpen replyId st then ""
         else match preloadedSuggestions st !! replyId with
              | Some v => v
              | None => ""
              end)
  ∧ preloadedSuggestions (handleNotableUserReply replyId st) = preloadedSuggestions st.
Proof.
  unfold boxOpen, handleNotableUserReply, typeReply. simpl.
  destruct (decide (replyingToId st = Some replyId)) as [Heq|Hne].
  - rewrite !(bool_decide_eq_true_2 _ Heq). simpl.
    done.
  - rewrite !(bool_decide_eq_false_2 _ Hne). simpl.
    split; [by apply bool_decide_eq_true_2 |].
    split; [intros other Hother; apply bool_decide_eq_false_2; congruence |].
    split; [| done].
    intros _. destruct (preloadedSuggestions st !! replyId) as [v|]; simpl; [| reflexivity].
    by destruct (String.eqb_spec v "") as [->|].
Qed.

(** The draft typed under r1 is dropped when the box of r2 opens with
    its suggestion. *)
Lemma reply_box_switch_example :
  replyText (handleNotableUserReply "r2" Fixture.drafting) = "Thanks!"
  ∧ boxOpen "r1" (handleNotableUserReply "r2" Fixture.drafting) = false
  ∧ replyText (handleNotableUserReply "r1" Fixture.drafting) = "".
Proof. repeat split. Qed.

End SuggestionFacts.

(** ** The collapsed summary *)

Section SummaryFacts.
Import Summary.

Lemma length_append (s1 s2 : string) :
  String.length (s1 +:+ s2) = (String.length s1 + String.length s2)%nat.
Proof. induction s1 as [|c s1 IH]; simpl; [reflexivity | by rewrite IH]. Qed.

Lemma append_empty_r (s : string) : s +:+ "" = s.
Proof.
  induction s as [|c s IH]; [reflexivity |].
  change (String c (s +:+ "") = String c s). by rewrite IH.
Qed.

Lemma length_substring0 (n : nat) :
  ∀ s, String.length (String.substring 0 n s) = Nat.min n (String.length s).
Proof.
  induction n as [|n IH]; intros [|c s]; simpl; try reflexivity. by rewrite IH.
Qed.

Lemma substring0_all (n : nat) :
  ∀ s, (String.length s ≤ n)%nat → String.substring 0 n s = s.
Proof.
  induction n as [|n IH]; intros [|c s]; simpl; intros Hle; try reflexivity; [lia |].
  rewrite IH; [reflexivity | lia].
Qed.

(** A string is its first [n] characters followed by the rest. *)
Lemma substring0_split (n : nat) :
  ∀ s, ∃ rest, s = String.substring 0 n s +:+ rest
               ∧ String.length rest = (String.length s - n)%nat.
Proof.
  induction n as [|n IH]; intros s.
  - exists s. destruct s; simpl; split; reflexivity.
  - destruct s as [|c s]; simpl; [by exists "" |].
    destruct (IH s) as (rest & Hs & Hl). exists rest. split; [| exact Hl].
    change (String c s = String c (String.substring 0 n s +:+ rest)).
    f_equal. exact Hs.
Qed.

(** X14. The summary printed while collapsed. A summary of at most 150
    characters is printed whole and gets no toggle. A longer one is cut
    to its first 150 characters followed by three dots, 153 characters in
    all, and gets the toggle; so a summary of 151 or 152 characters is
    printed longer collapsed than expanded. Expanded, the summary is
    printed whole. *)
Theorem summary_collapse (summary : string) :
  ((String.length summary ≤ 150)%nat →
   collapsed summary = summary ∧ hasToggle summary = false)
  ∧ ((150 < String.length summary)%nat →
     hasToggle summary = true
     ∧ String.length (collapsed summary) = 153%nat
     ∧ ∃ rest, summary = String.substring 0 150 summary +:+ rest
               ∧ collapsed summary = String.substring 0 150 summary +:+ "..."
               ∧ String.length rest = (String.length summary - 150)%nat)
  ∧ (String.length (collapsed summary) ≤ 153)%nat
  ∧ ((String.length summary < String.length (collapsed summary))%nat
     ↔ String.length summary = 151%nat ∨ String.length summary = 152%nat)
  ∧ shown true summary = summary.
Proof.
  assert (Hlen : String.length (collapsed summary)
                 = (Nat.min 150 (String.length summary)
                    + if (150 <? String.length summary)%nat then 3 else 0)%nat).
  { unfold collapsed. rewrite length_append, length_substring0.
    by destruct (150 <? String.length summary)%nat. }
  split; [| split; [| split; [| split]]].
  - intros Hle. unfold collapsed, hasToggle.
    assert (Hlt : (150 <? String.length summary)%nat = false)
      by (apply Nat.ltb_ge; lia).
    rewrite Hlt, substring0_all by done. split; [| reflexivity].
    apply append_empty_r.
  - intros Hgt.
    assert (Hlt : (150 <? String.length summary)%nat = true)
      by (apply Nat.ltb_lt; lia).
    split; [exact Hlt |]. split; [rewrite Hlen, Hlt; lia |].
    destruct (substring0_split 150 summary) as (rest & Hs & Hl).
    exists rest. split; [exact Hs |]. split; [| exact Hl].
    unfold collapsed. by rewrite Hlt.
  - rewrite Hlen. destruct (150 <? String.length summary)%nat; lia.
  - rewrite Hlen. destruct (150 <? String.length summary)%nat eqn:Hlt.
    + apply Nat.ltb_lt in Hlt. lia.
    + apply Nat.ltb_ge in Hlt. lia.
  - reflexivity.
Qed.

End SummaryFacts.

(** ** The view across page loads *)

Section NavigationFacts.
Import Navigation.

Lemma restore_persist (st : State) (storage : gmap string string) :
  currentView (restore (persist st storage)) = currentView st
  ∧ selectedPostId (restore (persist st storage))
    = (if str_truthy (selectedPostId st) then selectedPostId st else None)
  ∧ selectedPost (restore (persist st storage)) = None
  ∧ data (restore (persist st storage)) = None.
Proof.
  unfold restore, persist. simpl.
  destruct (str_truthy (selectedPostId st)) eqn:Ht; simpl.
  - destruct (selectedPostId st) as [postId|]; [| discriminate]. simpl.
    repeat split.
    + rewrite lookup_insert_ne by done. rewrite lookup_insert_eq.
      by destruct (currentView st).
    + by rewrite lookup_insert_eq.
  - repeat split.
    + rewrite lookup_delete_ne by done. rewrite lookup_insert_eq.
      by destruct (currentView st).
    + by rewrite lookup_delete_eq.
Qed.

(** X15. What the persistence effect writes is what the next page load
    reads: the view comes back as it was, and so does the selected post
    id, except that an empty id is removed and comes back as none; the
    loaded data and the selected post do not survive; no other key of
    the storage is written. *)
Theorem view_persistence_roundtrip (st : State) (storage : gmap string string) :
  currentView (restore (persist st storage)) = currentView st
  ∧ selectedPostId (restore (persist st storage))
    = (if str_truthy (selectedPostId st) then selectedPostId st else None)
  ∧ selectedPost (restore (persist st storage)) = None
  ∧ data (restore (persist st storage)) = None
  ∧ (∀ k, k ≠ "hateraide_view" → k ≠ "hateraide_post_id" →
       persist st storage !! k = storage !! k).
Proof.
  destruct (restore_persist st storage) as (Hv & Hid & Hsp & Hd).
  repeat (split; [assumption |]).
  intros k Hv' Hp. unfold persist.
  destruct (str_truthy (selectedPostId st)).
  - by rewrite !lookup_insert_ne.
  - rewrite lookup_delete_ne by done. by rewrite lookup_insert_ne.
Qed.

Lemma find_post_id posts postId p : find_post posts postId = Some p → post_id p = postId.
Proof.
  unfold find_post. intros Hf. apply find_some in Hf as [_ Heq].
  by apply String.eqb_eq.
Qed.

(** X16. The analysis view survives a page reload. After HaterAide is
    enabled for a post of the loaded data, that post's analysis page is
    shown; after a reload and before the data has arrived the feed page
    is rendered (not the loading screen, even while loading); once the
    data arrives the same post's analysis page is shown again, and the
    recovery effect selects that post. *)
Theorem analysis_view_survives_reload
    (st : State) (posts : list Post) (postId : string) (p : Post)
    (storage : gmap string string) (loading : bool) :
  data st = Some posts →
  find_post posts postId = Some p →
  postId ≠ "" →
  let enabled := enableHaterAide postId st in
  let reloaded := restore (persist enabled storage) in
  render loading enabled = AnalysisPage p
  ∧ render loading reloaded = FeedPage
  ∧ render loading (setData posts reloaded) = AnalysisPage p
  ∧ selectedPost (recoverEffect (setData posts reloaded)) = Some p
  ∧ render loading (recoverEffect (setData posts reloaded)) = AnalysisPage p.
Proof.
  intros Hdata Hfind Hne enabled reloaded.
  assert (Hen : enabled = {| data := data st; currentView := analysis;
                             selectedPostId := Some postId; selectedPost := Some p |})
    by (unfold enabled, enableHaterAide; by rewrite Hdata, Hfind).
  assert (Htr : str_truthy (Some postId) = true)
    by (simpl; by destruct (String.eqb_spec postId "")).
  pose proof (restore_persist enabled storage) as (Hv & Hid & Hsp & Hd).
  fold reloaded in Hv, Hid, Hsp, Hd.
  rewrite Hen in Hv, Hid. cbn [selectedPostId currentView] in Hv, Hid.
  rewrite Htr in Hid.
  split; [by rewrite Hen |].
  split; [unfold render, postToShow; by rewrite Hv, Hsp, Hid, Hd, Htr |].
  split.
  { unfold render, postToShow, setData.
    cbn [selectedPostId currentView selectedPost data].
    rewrite Hv, Hsp, Hid, Htr.
    change (default "" (Some postId)) with postId. by rewrite Hfind. }
  assert (Hrec : recoverEffect (setData posts reloaded)
                 = {| data := Some posts; currentView := analysis;
                      selectedPostId := Some postId; selectedPost := Some p |}).
  { unfold recoverEffect, setData.
    cbn [selectedPostId currentView selectedPost data].
    rewrite Hsp, Hid, Htr.
    change (default "" (Some postId)) with postId. by rewrite Hfind, Hv. }
  rewrite Hrec. by split.
Qed.

Lemma analysis_view_survives_reload_witness :
  render true (enableHaterAide "p2" Fixture.browsing) = AnalysisPage (Fixture.post "p2")
  ∧ render true (restore (persist (enableHaterAide "p2" Fixture.browsing) ∅)) = FeedPage
  ∧ render true (setData [Fixture.post "p1"; Fixture.post "p2"]
                   (restore (persist (enableHaterAide "p2" Fixture.browsing) ∅)))
    = AnalysisPage (Fixture.post "p2")
  ∧ selectedPost (recoverEffect
                    (setData [Fixture.post "p1"; Fixture.post "p2"]
                       (restore (persist (enableHaterAide "p2" Fixture.browsing) ∅))))
    = Some (Fixture.post "p2")
  ∧ render true (recoverEffect
                   (setData [Fixture.post "p1"; Fixture.post "p2"]
                      (restore (persist (enableHaterAide "p2" Fixture.browsing) ∅))))
    = AnalysisPage (Fixture.post "p2").
Proof.
  apply (analysis_view_survives_reload Fixture.browsing
           [Fixture.post "p1"; Fixture.post "p2"] "p2" (Fixture.post "p2") ∅ true);
    [reflexivity | reflexivity | discriminate].
Defined.

(** X17. The recovery branch of the render never finds a post: it is
    reached only when the lookup it repeats has just failed. In that
    state (analysis view, no post to show) the recovery effect changes
    nothing either, the feed page is what is rendered, and the view
    stays the analysis view; enabling HaterAide for an unknown post id
    changes nothing. *)
Theorem render_recovery_never_finds (st : State) :
  renderRecovery st = None
  ∧ (postToShow st = None →
     recoverEffect st = st
     ∧ (currentView st = analysis → ∀ loading, render loading st = FeedPage))
  ∧ (∀ postId,
       (∀ posts, data st = Some posts → find_post posts postId = None) →
       enableHaterAide postId st = st).
Proof.
  split; [| split].
  - unfold renderRecovery, postToShow.
    destruct (currentView st); [reflexivity |].
    destruct (selectedPost st); [reflexivity |].
    destruct (str_truthy (selectedPostId st)); [| by destruct (data st)].
    destruct (data st) as [posts|]; [| reflexivity].
    by destruct (find_post posts (default "" (selectedPostId st))).
  - unfold postToShow, recoverEffect, render, postToShow. intros Hnone.
    destruct (selectedPost st); [discriminate |].
    split.
    + destruct (data st) as [posts|]; [| reflexivity].
      destruct (str_truthy (selectedPostId st)); [| reflexivity].
      by rewrite Hnone.
    + intros -> loading. by rewrite Hnone.
  - intros postId Hno. unfold enableHaterAide.
    destruct (data st) as [posts|]; [| reflexivity]. by rewrite (Hno posts).
Qed.

End NavigationFacts.

(** ** Listed actions: the two revisions of the view *)

Section ListedActions.

(** The last step of the later resolver reads the list the earlier
    revision returns, and takes its first element. *)
Lemma fallback_is_first_listed results replyId :
  App.fallbackModeration results replyId
  = App.first_or_null (default [] (ToolView.getReplyModerationInfo results replyId)).
Proof.
  unfold App.fallbackModeration, ToolView.getReplyModerationInfo.
  destruct results as [[[analyses|]]|]; simpl; try reflexivity.
  destruct (find_analysis analyses replyId) as [[rid [[se au [l|]]|]]|]; reflexivity.
Qed.

(** [Array.some] with the tool-name callback: true exactly when an
    action with that tool name is listed and every element before it can
    be read; it throws exactly when an element that cannot be read is
    reached before any such action; it is false exactly when every
    element can be read and none has the name. *)
Lemma some_tool_cases (name : string) (actions : list jsval) :
  (ToolView.some_tool name actions = Normal true
   ↔ ∃ before action after,
       actions = before ++ action :: after
       ∧ get_prop action "tool_name" = Normal (VStr name)
       ∧ ∀ b, b ∈ before → get_prop b "tool_name" ≠ Throw)
  ∧ (ToolView.some_tool name actions = Throw
     ↔ ∃ before action after,
         actions = before ++ action :: after
         ∧ get_prop action "tool_name" = Throw
         ∧ ∀ b, b ∈ before →
             ∃ t, get_prop b "tool_name" = Normal t ∧ t ≠ VStr name)
  ∧ (ToolView.some_tool name actions = Normal false
     ↔ ∀ b, b ∈ actions → ∃ t, get_prop b "tool_name" = Normal t ∧ t ≠ VStr name).
Proof.
  induction actions as [|a rest (IHt & IHx & IHf)]; simpl.
  - split; [| split].
    + split; [discriminate | intros (before & action & after & Heq & _)].
      by destruct before.
    + split; [discriminate | intros (before & action & after & Heq & _)].
      by destruct before.
    + split; [intros _ b Hb; by apply elem_of_nil in Hb | done].
  - destruct (get_prop a "tool_name") as [t|] eqn:Ha.
    + destruct (strict_eq_str t name) eqn:Heq.
      * apply strict_eq_str_true in Heq as ->.
        split; [| split].
        -- split; [intros _ | done]. exists [], a, rest. split; [first [reflexivity | by rewrite Hrest] | split; [done |]].
           intros b Hb. by apply elem_of_nil in Hb.
        -- split; [discriminate |].
           intros (before & action & after & Hl & Hthrow & Hall).
           destruct before as [|b0 before]; simpl in Hl; injection Hl as Ha0 Hrest;
             [subst action after | subst b0].
           ++ congruence.
           ++ destruct (Hall a) as (t' & Ht' & Hne); [apply elem_of_cons; by left |].
              congruence.
        -- split; [discriminate |]. intros Hall.
           destruct (Hall a) as (t' & Ht' & Hne); [apply elem_of_cons; by left |].
           congruence.
      * assert (Hne : t ≠ VStr name)
          by (intros ->; simpl in Heq; by rewrite String.eqb_refl in Heq).
        split; [| split].
        -- rewrite IHt. split.
           ++ intros (before & action & after & -> & Hact & Hall).
              exists (a :: before), action, after. split; [first [reflexivity | by rewrite Hrest] | split; [done |]].
              intros b Hb. apply elem_of_cons in Hb as [-> | Hb]; [congruence | by apply Hall].
           ++ intros (before & action & after & Hl & Hact & Hall).
              destruct before as [|b0 before]; simpl in Hl; injection Hl as Ha0 Hrest;
             [subst action after | subst b0].
              ** congruence.
              ** exists before, action, after. split; [first [reflexivity | by rewrite Hrest] | split; [done |]].
                 intros b Hb. apply Hall, elem_of_cons. by right.
        -- rewrite IHx. split.
           ++ intros (before & action & after & -> & Hact & Hall).
              exists (a :: before), action, after. split; [first [reflexivity | by rewrite Hrest] | split; [done |]].
              intros b Hb. apply elem_of_cons in Hb as [-> | Hb]; [eauto | by apply Hall].
           ++ intros (before & action & after & Hl & Hact & Hall).
              destruct before as [|b0 before]; simpl in Hl; injection Hl as Ha0 Hrest;
             [subst action after | subst b0].
              ** congruence.
              ** exists before, action, after. split; [first [reflexivity | by rewrite Hrest] | split; [done |]].
                 intros b Hb. apply Hall, elem_of_cons. by right.
        -- rewrite IHf. split.
           ++ intros Hall b Hb. apply elem_of_cons in Hb as [-> | Hb]; [eauto | by apply Hall].
           ++ intros Hall b Hb. apply Hall, elem_of_cons. by right.
    + split; [| split].
      * split; [discriminate |].
        intros (before & action & after & Hl & Hact & Hall).
        destruct before as [|b0 before]; simpl in Hl; injection Hl as Ha0 Hrest;
             [subst action after | subst b0].
        -- congruence.
        -- exfalso. apply (Hall a); [apply elem_of_cons; by left | done].
      * split; [intros _ | done]. exists [], a, rest. split; [first [reflexivity | by rewrite Hrest] | split; [done |]].
        intros b Hb. by apply elem_of_nil in Hb.
      * split; [discriminate |]. intros Hall.
        destruct (Hall a) as (t' & Ht' & _); [apply elem_of_cons; by left |].
        congruence.
Qed.

Lemma readable_get_prop v p : readable v → get_prop v p = Normal (get_own v p).
Proof. intros [Hn Hu]. by destruct v. Qed.

Lemma unreadable_get_prop v p : ¬ readable v → get_prop v p = Throw.
Proof.
  intros Hnot. destruct v; try reflexivity; exfalso; apply Hnot; by split.
Qed.

Lemma get_prop_normal v p t : get_prop v p = Normal t ↔ readable v ∧ get_own v p = t.
Proof.
  split.
  - intros Hg. assert (Hr : readable v) by (split; intros ->; discriminate Hg).
    split; [exact Hr |]. rewrite (readable_get_prop v p Hr) in Hg. by injection Hg.
  - intros [Hr <-]. by apply readable_get_prop.
Qed.

Lemma get_prop_throw v p : get_prop v p = Throw ↔ ¬ readable v.
Proof.
  split.
  - intros Hg Hr. by rewrite (readable_get_prop v p Hr) in Hg.
  - apply unreadable_get_prop.
Qed.

Lemma some_tool_law (name : string) (actions : list jsval) :
  some_law name actions
    (match ToolView.some_tool name actions with
     | Normal b => Normal (Some b)
     | Throw => Throw
     end).
Proof.
  destruct (some_tool_cases name actions) as (Ht & Hx & Hf).
  assert (Hother : ∀ b, (∃ t, get_prop b "tool_name" = Normal t ∧ t ≠ VStr name)
                        ↔ readable b ∧ get_own b "tool_name" ≠ VStr name).
  { intros b. split.
    - intros (t & Hg & Hne). apply get_prop_normal in Hg as [Hr <-]. done.
    - intros [Hr Hne]. exists (get_own b "tool_name"). split; [| done].
      by apply readable_get_prop. }
  split; [| split].
  - transitivity (ToolView.some_tool name actions = Normal true).
    { destruct (ToolView.some_tool name actions) as [[|]|];
        split; intros [=]; reflexivity. }
    rewrite Ht. split.
    + intros (before & action & behind & Heq & Hg & Hall).
      apply get_prop_normal in Hg as [Hr Hname].
      exists before, action, behind. repeat split; try done.
      all: try (destruct Hr; done).
      all: intros ->; eapply Hall; [eassumption | reflexivity].
    + intros (before & action & behind & Heq & Hname & Hr & Hall).
      exists before, action, behind. split; [done |]. split.
      * apply get_prop_normal. done.
      * intros b Hb. apply (proj2 (not_iff_compat (get_prop_throw b "tool_name"))).
        intros Hnot. apply Hnot. by apply Hall.
  - transitivity (ToolView.some_tool name actions = Throw).
    { destruct (ToolView.some_tool name actions) as [[|]|];
        split; intros [=]; reflexivity. }
    rewrite Hx. split.
    + intros (before & action & behind & Heq & Hg & Hall).
      exists before, action, behind. split; [done |]. split.
      * exact (proj1 (get_prop_throw action "tool_name") Hg).
      * intros b Hb. apply Hother. by apply Hall.
    + intros (before & action & behind & Heq & Hg & Hall).
      exists before, action, behind. split; [done |]. split.
      * exact (proj2 (get_prop_throw action "tool_name") Hg).
      * intros b Hb. apply Hother. by apply Hall.
  - transitivity (ToolView.some_tool name actions = Normal false).
    { destruct (ToolView.some_tool name actions) as [[|]|];
        split; intros [=]; reflexivity. }
    rewrite Hf. split; intros Hall b Hb; apply Hother; by apply Hall.
Qed.

Lemma find_by_id_none replyId entries :
  (∀ e, e ∈ entries → readable e ∧ get_own e "reply_id" ≠ VStr replyId) →
  Raw.find_by_id replyId entries = Normal VUndefined.
Proof.
  induction entries as [|e rest IH]; simpl; intros Hall; [reflexivity |].
  destruct (Hall e) as [Hr Hne]; [apply elem_of_cons; by left |].
  rewrite (readable_get_prop e "reply_id" Hr).
  destruct (strict_eq_str (get_own e "reply_id") replyId) eqn:Heq.
  - by apply strict_eq_str_true in Heq.
  - apply IH. intros e' He'. apply Hall, elem_of_cons. by right.
Qed.

Lemma find_by_id_skip replyId before rest :
  (∀ b, b ∈ before → readable b ∧ get_own b "reply_id" ≠ VStr replyId) →
  Raw.find_by_id replyId (before ++ rest) = Raw.find_by_id replyId rest.
Proof.
  induction before as [|b before IH]; simpl; intros Hall; [reflexivity |].
  destruct (Hall b) as [Hr Hne]; [apply elem_of_cons; by left |].
  rewrite (readable_get_prop b "reply_id" Hr).
  destruct (strict_eq_str (get_own b "reply_id") replyId) eqn:Heq.
  - by apply strict_eq_str_true in Heq.
  - apply IH. intros b' Hb'. apply Hall, elem_of_cons. by right.
Qed.

Lemma uses_tool_law (name : string) : tool_test_law name (Raw.uses_tool name).
Proof.
  intros results replyId analyses.
  unfold Raw.uses_tool, Raw.getReplyModerationInfo. fold analyses.
  split; [by intros -> |]. split.
  - intros -> Hnot. simpl.
    destruct analyses as [| | | | | entries |]; try reflexivity.
    by destruct (Hnot entries).
  - intros entries ->. simpl. split.
    + intros Hall. by rewrite find_by_id_none.
    + intros before e behind -> Hbefore.
      rewrite find_by_id_skip by done. simpl. split.
      * intros Hr. by rewrite (unreadable_get_prop e "reply_id" Hr).
      * intros Hr Hid.
        rewrite (readable_get_prop e "reply_id" Hr), Hid. simpl.
        rewrite String.eqb_refl. unfold js_or.
        set (actions := opt_get (opt_get e "analysis_result") "moderation_actions").
        split; [by intros -> |]. split.
        -- intros Ht Hnot. rewrite Ht.
           destruct actions as [| | | | | l |]; try reflexivity; try discriminate Ht.
           by destruct (Hnot l).
        -- intros l ->. simpl. apply some_tool_law.
Qed.

(** X18. The two tests of the earlier revision, on any payload. Without
    a [reply_analyses] the result is [undefined]; a [reply_analyses] that
    is no array raises. In an array the first entry with the reply's id
    decides; a [null] entry before it raises; with no such entry, or
    without [moderation_actions] in it, the result is [undefined];
    [moderation_actions] that is no array raises. On an array of actions
    the test follows [Array.some]: true exactly when an action with the
    tool name is listed and no [null] element stands before it, raising
    exactly when a [null] element is reached before any such action,
    false exactly when every element can be read and none has the
    name. *)
Theorem tool_decision :
  tool_test_law "blur_text_content" Raw.shouldBlurContent
  ∧ tool_test_law "minimize_media_content" Raw.shouldMinimizeMedia.
Proof. split; apply uses_tool_law. Qed.

(** On a payload of the declared shape the tests are the ones [ToolView]
    models. *)
Lemma find_by_id_typed replyId analyses :
  Raw.find_by_id replyId (List.map js_of_entry analyses)
  = Normal (match find_analysis analyses replyId with
            | Some a => js_of_entry a
            | None => VUndefined
            end).
Proof.
  unfold find_analysis. induction analyses as [|a rest IH]; simpl; [reflexivity |].
  destruct (String.eqb (ra_reply_id a) replyId); [reflexivity | exact IH].
Qed.

Lemma raw_agrees_with_typed name results replyId :
  Raw.uses_tool name (js_of_results results) replyId
  = ToolView.uses_tool name results replyId.
Proof.
  unfold Raw.uses_tool, Raw.getReplyModerationInfo, ToolView.uses_tool,
    ToolView.getReplyModerationInfo.
  destruct results as [[[analyses|]]|]; simpl; try reflexivity.
  rewrite find_by_id_typed.
  destruct (find_analysis analyses replyId) as [[rid [[se au [l|]]|]]|]; simpl;
    try reflexivity; destruct se, au; reflexivity.
Qed.

(** X19. With no Live and no Preloaded entry, the later view decides
    from the first listed action alone: when that element is an object
    without [action_type] (as the tool actions of the earlier revision
    are) the reply is not moderated, whatever stands behind it in the
    list. *)
Theorem first_listed_action_decides
    (st : App.State) (replyId : string) (actions : list jsval) :
  App.moderationActions st !! replyId = None →
  App.preloadedModerations st !! replyId = None →
  ToolView.getReplyModerationInfo (App.replyAnalysisResults st) replyId = Some actions →
  App.getReplyModerationInfo st replyId = App.first_or_null actions
  ∧ (∀ fields rest,
       actions = VObj fields :: rest →
       App.shouldModerateContent st replyId
       = Normal (if obj_has fields "action_type"
                 then obj_get fields "action_type" else VNull))
  ∧ (actions = [] → App.shouldModerateContent st replyId = Normal VNull).
Proof.
  intros Hlive Hpre Hlist.
  assert (Hinfo : App.getReplyModerationInfo st replyId = App.first_or_null actions).
  { rewrite no_layer_falls_back by done.
    by rewrite fallback_is_first_listed, Hlist. }
  split; [exact Hinfo |].
  unfold App.shouldModerateContent. rewrite Hinfo. split.
  - intros fields rest ->. simpl. by destruct (obj_has fields "action_type").
  - by intros ->.
Qed.

(** The earlier revision blurs r1 for its tool action; the later view
    shows r1 unmoderated although a hide is listed second. *)
Lemma first_listed_action_decides_witness :
  ToolView.shouldBlurContent (App.replyAnalysisResults Fixture.toolFirst) "r1"
  = Normal (Some true)
  ∧ App.getReplyModerationInfo Fixture.toolFirst "r1"
    = Fixture.toolAction "blur_text_content"
  ∧ App.shouldModerateContent Fixture.toolFirst "r1" = Normal VNull.
Proof.
  split; [reflexivity |].
  destruct (first_listed_action_decides Fixture.toolFirst "r1"
              [Fixture.toolAction "blur_text_content";
               js_of_action (Sample.pushed "r1" hide)]
              eq_refl eq_refl eq_refl) as (Hinfo & Hobj & _).
  split; [exact Hinfo |].
  exact (Hobj _ _ eq_refl).
Defined.

End ListedActions.

(** ** When the resolver raises *)

Section ResolverErrors.
Import App.

(** X20. What a stored entry decides. When the Live map holds a truthy
    value for a reply, or holds none (or a falsy one) and the Preloaded
    map holds a truthy value, that value is what the resolver returns,
    and the analysis results are not consulted. The display decision is
    then the value's own [action_type] when it is an object that has the
    property, none when it is an object without it or an array, and a
    TypeError when it is anything else (a non-empty string, a number,
    [true]): the decision raises exactly on a stored value that is no
    object. Rendering the reply's content raises exactly when the
    decision does. *)
Theorem stored_entry_decides (st : State) (reply : Reply) (v : jsval) :
  truthy v = true →
  map_get (moderationActions st) (id reply) = v
  ∨ (truthy (map_get (moderationActions st) (id reply)) = false
     ∧ map_get (preloadedModerations st) (id reply) = v) →
  getReplyModerationInfo st (id reply) = v
  ∧ (∀ fields, v = VObj fields →
       shouldModerateContent st (id reply)
       = Normal (if obj_has fields "action_type"
                 then obj_get fields "action_type" else VNull))
  ∧ (∀ elems, v = VArr elems → shouldModerateContent st (id reply) = Normal VNull)
  ∧ (shouldModerateContent st (id reply) = Throw
     ↔ (∀ fields, v ≠ VObj fields) ∧ (∀ elems, v ≠ VArr elems))
  ∧ (renderContent st reply = Throw ↔ shouldModerateContent st (id reply) = Throw).
Proof.
  intros Ht Hstored.
  assert (Hinfo : getReplyModerationInfo st (id reply) = v).
  { unfold getReplyModerationInfo.
    destruct Hstored as [Hlive | [Hlive Hpre]].
    - by rewrite Hlive, Ht.
    - by rewrite Hlive, Hpre, Ht. }
  split; [exact Hinfo |].
  unfold renderContent, shouldModerateContent. rewrite Hinfo, Ht. simpl.
  split; [| split; [| split]].
  - intros fields ->. simpl. by destruct (obj_has fields "action_type").
  - by intros elems ->.
  - destruct v as [| | b | n | s | elems | fields]; simpl;
      try discriminate Ht.
    + split; [intros _; split; intros; discriminate | done].
    + split; [intros _; split; intros; discriminate | done].
    + split; [intros _; split; intros; discriminate | done].
    + split; [discriminate | intros [_ Hnot]; by destruct (Hnot elems)].
    + split; [| intros [Hnot _]; by destruct (Hnot fields)].
      by destruct (obj_has fields "action_type").
  - destruct (match has_prop "action_type" v with
              | Normal true => get_prop v "action_type"
              | Normal false => Normal VNull
              | Throw => Throw
              end) as [t|]; [| done].
    split; [| discriminate].
    destruct (strict_eq_str t "hide"); [discriminate |].
    destruct (strict_eq_str t "blur"); discriminate.
Qed.

(** A snapshot that stores the bare word hide for r1: the decision for
    r1 raises. *)
Lemma stored_entry_decides_witness :
  getReplyModerationInfo Fixture.bareWord (id (Sample.textReply "r1" false))
  = VStr "hide"
  ∧ shouldModerateContent Fixture.bareWord (id (Sample.textReply "r1" false)) = Throw
  ∧ renderContent Fixture.bareWord (Sample.textReply "r1" false) = Throw.
Proof.
  destruct (stored_entry_decides Fixture.bareWord (Sample.textReply "r1" false)
              (VStr "hide") eq_refl (or_introl eq_refl))
    as (Hinfo & _ & _ & Hthrow & Hrender).
  assert (Hs : shouldModerateContent Fixture.bareWord (id (Sample.textReply "r1" false))
               = Throw)
    by (apply Hthrow; split; intros; discriminate).
  split; [exact Hinfo |]. split; [exact Hs |]. by apply Hrender.
Defined.

End ResolverErrors.

(** ** The Reply component: revealing and re-hiding *)

Section ReplyRendering.
Import ReplyComponent.

(** X21. Revealing. For a reply that is not flagged hidden, after the
    user revealed the content the component renders the card, never the
    notice, and the text is never blurred; media stays covered until the
    media is revealed too; with both revealed nothing is covered. A
    reply flagged hidden stays behind the notice whatever is revealed. *)
Theorem reveal_uncovers (reply : Reply) (data : option AnalysisData) (st : State) :
  (hidden reply = false →
   (∃ t m, render reply data (revealContent st) = Card t m ∧ t ≠ TextBlurred)
   ∧ (∃ t m, render reply data (revealMedia (revealContent st)) = Card t m
             ∧ t ≠ TextBlurred ∧ m ≠ MediaHidden ∧ m ≠ MediaBlurred)
   ∧ (isMediaRevealed st = false →
      hasMedia reply = true → type reply ≠ KText →
      truthy (moderationType st (getReplySentiment data (id reply))) = true →
      ∃ t m, render reply data (revealContent st) = Card t m
             ∧ (m = MediaHidden ∨ m = MediaBlurred)))
  ∧ (hidden reply = true →
     ∃ label line,
       render reply data (revealMedia (revealContent st)) = HiddenNotice label line).
Proof.
  split.
  - intros Hh. unfold render. rewrite Hh. simpl.
    rewrite !andb_false_r. simpl.
    set (mt := moderationType _ _).
    assert (Hmt : ∀ s', moderationType (revealContent st) s' = moderationType st s'
                        ∧ moderationType (revealMedia (revealContent st)) s'
                          = moderationType st s') by done.
    split; [| split].
    + destruct (type reply); [| destruct (hasMedia reply) | destruct (hasMedia reply)];
        try (eexists _, _; split; [reflexivity |]); unfold textView; simpl;
        rewrite ?andb_false_r; try done.
      by destruct (String.eqb (content reply) "").
    + unfold textView, mediaView. simpl. rewrite !andb_false_r.
      destruct (type reply); [| destruct (hasMedia reply) | destruct (hasMedia reply)];
        try (eexists _, _; split; [reflexivity |]); try done.
      by destruct (String.eqb (content reply) "").
    + intros Hmr Hmedia Hty Htruthy. unfold mediaView, textView. simpl.
      fold mt in Htruthy.
      rewrite Hmedia, Hmr. fold mt. rewrite Htruthy. simpl.
      destruct (type reply); [done | |];
        eexists _, _; (split; [reflexivity |]);
        destruct (strict_eq_str mt "hide"); auto.
  - intros Hh. unfold render. rewrite Hh. simpl. eauto.
Qed.

Lemma reveal_uncovers_witness :
  ∃ t m, render (Fixture.imageReply "r1") None
           (revealContent {| moderationAction := js_of_action (Sample.pushed "r1" hide);
                             isContentRevealed := false;
                             isMediaRevealed := false |})
         = Card t m ∧ t ≠ TextBlurred.
Proof.
  apply (proj1 (reveal_uncovers (Fixture.imageReply "r1") None
                  {| moderationAction := js_of_action (Sample.pushed "r1" hide);
                     isContentRevealed := false;
                     isMediaRevealed := false |}) eq_refl).
Defined.

(** X22. Covering again. A pushed action for this reply covers what
    the user had revealed, whatever the component's state and the
    analysis label were: after a hide action the component renders the
    notice, naming the action's sentiment; after a blur action on a reply
    not flagged hidden it renders the card with its text and its media
    blurred. *)
Theorem matching_update_covers_again
    (reply : Reply) (data : option AnalysisData) (a : ModerationAction) (st : State) :
  reply_id a = id reply →
  ∃ st', onUpdate reply (js_of_update a) st = (st', Normal tt)
    ∧ match action_type a with
      | hide =>
          ∃ line, render reply data st'
                  = HiddenNotice (VStr (sentiment_str (sentiment a))) line
      | blur =>
          hidden reply = false →
          render reply data st'
          = match type reply with
            | KText => Card TextBlurred NoMedia
            | KImage =>
                if hasMedia reply then
                  Card (if String.eqb (content reply) "" then NoText else TextBlurred)
                       MediaBlurred
                else Card NoText NoMedia
            | KGif => if hasMedia reply then Card NoText MediaBlurred
                      else Card NoText NoMedia
            end
      end.
Proof.
  intros Hid. eexists. split.
  - unfold onUpdate. simpl. rewrite Hid, String.eqb_refl. reflexivity.
  - unfold render, moderationType, moderationReason, textView, mediaView.
    destruct a as [rid ty why sent ts stat]. simpl.
    destruct ty, sent; simpl; rewrite ?orb_true_r; try (by eexists);
      intros ->; simpl; reflexivity.
Qed.

Lemma matching_update_covers_again_witness :
  ∃ st', onUpdate (Fixture.imageReply "r1") (js_of_update (Sample.pushed "r1" hide))
           (revealMedia (revealContent initial)) = (st', Normal tt)
    ∧ ∃ line, render (Fixture.imageReply "r1") None st'
              = HiddenNotice (VStr "harmful") line.
Proof.
  exact (matching_update_covers_again (Fixture.imageReply "r1") None
           (Sample.pushed "r1" hide) (revealMedia (revealContent initial)) eq_refl).
Defined.

End ReplyRendering.
